(** * hk_mup/mup.py: maximal update parametrization bookkeeping for Haiku

    A shallow embedding of [src/hk_mup/mup.py] and the properties of its
    shape analysis, learning-rate registry, creator and getter
    interceptors, optimizer wrapper and session context.

    Conventions of the embedding:
    - a Python [dict] with string keys is a [gmap string _]; the two
      registries are [defaultdict(dict)], so writing under a missing
      parent first creates the inner dict;
    - a shape is a [list Z] (a tuple of ints);
    - Python numbers are [pynum]: an [int] or a [float]; the float
      operations the module uses are the fields of the class [Float64],
      so every theorem holds for whatever these operations compute;
      the worked examples use exact rationals;
    - an exception is a value of [exn]; a function that mutates the
      session object and may raise is a state transformer returning the
      object as the raise leaves it. *)

From Stdlib Require Import ZArith QArith Lia Ascii.
From stdpp Require Import base strings gmap list.

Set Default Proof Using "Type".
Local Open Scope Z_scope.

(** ** Exceptions *)

(** The module raises [ValueError] with four different messages; each
    message gets a constructor of its own, named as the specification
    names the error.  The other constructors are the built-in exceptions
    the module's expressions can raise. *)
Inductive exn : Type :=
| UnpackError (n : nat)
    (* ValueError of [parent, name = xs] when [len(xs) = n] is not 2 *)
| TypeError
    (* subscripting [None] *)
| KeyError (key : string)
| IndexError
| ZeroDivisionError
| TooManyInfiniteDimensions (n_inf : nat) (full_name : string)
    (* 'At most two infinite dimensions supported. Found {n_inf} in {full_name}' *)
| SessionReuse
    (* 'Attempted to re-use mup context' *)
| EmptyRegistry
    (* 'Attempted to wrap optimizer before initializing network' *)
| NoActiveSession
    (* 'Attempted to use `use_mup()` outside of `apply_mup` context' *)
| TreeStructureError
    (* jax.tree_map on trees whose keys differ *).

#[global] Instance exn_eq_dec : EqDecision exn.
Proof. solve_decision. Defined.

(** Computations that may raise: [inl e] is [raise e], [inr a] returns. *)
Definition result (A : Type) : Type := exn + A.

Definition raise {A} (e : exn) : result A := inl e.

#[global] Instance result_ret : MRet result := λ A a, inr a.
#[global] Instance result_bind : MBind result := λ A B f r,
  match r with
  | inl e => inl e
  | inr a => f a
  end.

(** ** Python numbers *)

(** The float operations of the module.  [int_truediv a b] is [a / b] on
    two ints and [float_div x y] is [x / y] on two floats, each for a
    divisor that is not zero (a zero divisor raises before the operation
    is reached, see [truediv]).  Shapes are array shapes, so the quotient
    of two dimensions is always in the range of a double: [/] on two
    dimensions raises nothing but [ZeroDivisionError]. *)
Class Float64 (F : Type) : Type := {
  float_of_int : Z → F;
  int_truediv : Z → Z → F;
  float_div : F → F → F;
  float_is_zero : F → bool;
}.

Inductive pynum (F : Type) : Type :=
| PyInt (z : Z)
| PyFloat (x : F).
Arguments PyInt {F} z.
Arguments PyFloat {F} x.

Section Numbers.
Context `{Float64 F}.

(** [float(x)] *)
Definition to_float (x : pynum F) : F :=
  match x with
  | PyInt z => float_of_int z
  | PyFloat f => f
  end.

(** [x == 0] *)
Definition is_zero (x : pynum F) : bool :=
  match x with
  | PyInt z => z =? 0
  | PyFloat f => float_is_zero f
  end.

(** [bool(x)] *)
Definition truthy (x : pynum F) : bool := negb (is_zero x).

(** [x / y] *)
Definition truediv (x y : pynum F) : result (pynum F) :=
  if is_zero y then raise ZeroDivisionError
  else match x, y with
       | PyInt a, PyInt b => mret (PyFloat (int_truediv a b))
       | _, _ => mret (PyFloat (float_div (to_float x) (to_float y)))
       end.

(** The literals [1] and [1.] *)
Definition one_int : pynum F := PyInt 1.
Definition one_float : pynum F := PyFloat (float_of_int 1).
End Numbers.

(** Arrays (the values of parameters and of updates) and the two
    operations the module applies to them with a scalar on the right. *)
Class Array (F A : Type) : Type := {
  array_div : A → pynum F → A;
  array_mul : A → pynum F → A;
}.

(** ** Strings and sequences *)

(** [s.rsplit(sep)] for a one-character [sep] and no [maxsplit]: with no
    limit on the number of splits, [rsplit] cuts at every occurrence of
    the separator, as [split] does. *)
Fixpoint rsplit (sep : ascii) (s : string) : list string :=
  match s with
  | EmptyString => [EmptyString]
  | String c rest =>
      if Ascii.eqb c sep then EmptyString :: rsplit sep rest
      else match rsplit sep rest with
           | piece :: pieces => String c piece :: pieces
           | [] => [String c EmptyString]
           end
  end.

Definition slash : ascii := "/"%char.

(** [a, b = xs] *)
Definition unpack2 {A} (xs : list A) : result (A * A) :=
  match xs with
  | [a; b] => mret (a, b)
  | _ => raise (UnpackError (length xs))
  end.

(** [xs[i]] *)
Definition index {A} (xs : list A) (i : nat) : result A :=
  match xs !! i with
  | Some x => mret x
  | None => raise IndexError
  end.

(** [d[k]] on a dict *)
Definition subscript {V} (d : gmap string V) (k : string) : result V :=
  match d !! k with
  | Some v => mret v
  | None => raise (KeyError k)
  end.

(** [sum(bs)] for booleans *)
Definition sum_bools (bs : list bool) : nat := sum_list (Nat.b2n <$> bs).

(** [[f(x) for x in xs]] when [f] may raise: the first raise ends it. *)
Fixpoint comprehension {A B} (f : A → result B) (xs : list A) : result (list B) :=
  match xs with
  | [] => mret []
  | x :: rest => y ← f x; ys ← comprehension f rest; mret (y :: ys)
  end.

(** ** The session object *)

Abbreviation Shape := (list Z).
Abbreviation BaseShapes := (gmap string (gmap string (list Z))).

Record Mup (F : Type) : Type := mkMup {
  base_shapes : option BaseShapes;
  readout_mults : gmap string (pynum F);
  _adam_lrs : gmap string (gmap string (pynum F));
  _sgd_lrs : gmap string (gmap string (pynum F));
}.
Arguments mkMup {F}.
Arguments base_shapes {F}.
Arguments readout_mults {F}.
Arguments _adam_lrs {F}.
Arguments _sgd_lrs {F}.

(** [Mup.__init__] *)
Definition Mup_init {F} : Mup F :=
  mkMup None ∅ ∅ ∅.

(** [d[parent][name] = v] on a [defaultdict(dict)] *)
Definition setitem2 {V} (parent name : string) (v : V)
    (d : gmap string (gmap string V)) : gmap string (gmap string V) :=
  <[parent := <[name := v]> (default ∅ (d !! parent))]> d.

(** [d[parent][name]] read as an option *)
Definition lookup2 {V} (parent name : string)
    (d : gmap string (gmap string V)) : option V :=
  d !! parent ≫= (.!! name).

(** Stateful computations on the session object.  A raise keeps the
    mutations made before it. *)
Record action (F A : Type) : Type := Action { run : Mup F → Mup F * result A }.
Arguments Action {F A}.
Arguments run {F A}.

Definition lift {F A} (r : result A) : action F A := Action (λ self, (self, r)).

#[global] Instance action_ret {F} : MRet (action F) := λ A a, Action (λ self, (self, inr a)).
#[global] Instance action_bind {F} : MBind (action F) := λ A B k c,
  Action (λ self,
    match run c self with
    | (self', inl e) => (self', inl e)
    | (self', inr a) => run (k a) self'
    end).

Section Session.
Context `{Float64 F}.

(** [Mup.set_lrs] *)
Definition set_lrs (full_name : string) (sgd_lr adam_lr : pynum F) : action F unit :=
  '(parent, name) ← lift (unpack2 (rsplit slash full_name));
  Action (λ self,
    (mkMup (base_shapes self) (readout_mults self)
           (setitem2 parent name adam_lr (_adam_lrs self))
           (setitem2 parent name sgd_lr (_sgd_lrs self)),
     inr ())).

(** [_get_inf_ratios] *)
Definition _get_inf_ratios (mup_ctx : Mup F) (full_name : string) (shape : Shape)
    : result (nat * list (pynum F)) :=
  '(parent, name) ← unpack2 (rsplit slash full_name);
  shapes ← match base_shapes mup_ctx with
           | Some shapes => mret shapes
           | None => raise TypeError
           end;
  of_parent ← subscript shapes parent;
  base ← subscript of_parent name;
  let n_inf := sum_bools ((λ '(a, b), negb (a =? b)) <$> zip base shape) in
  if (2 <? n_inf)%nat then raise (TooManyInfiniteDimensions n_inf full_name)
  else
    inf_ratios ← comprehension (λ '(a, b), truediv (PyInt b) (PyInt a))
                   (filter (λ '(a, b), a ≠ b) (zip base shape));
    mret (n_inf, inf_ratios).
End Session.

(** ** Modules, contexts and initializers *)

(** [isinstance(context.module, Readout)] is the only thing the module
    asks of a Haiku module, so a module is its kind. *)
Inductive module_kind : Type :=
| Readout
| OtherModule.

Definition isinstance_Readout (m : module_kind) : bool :=
  match m with
  | Readout => true
  | OtherModule => false
  end.

(** The context Haiku hands to a creator or a getter. *)
Record Context : Type := mkContext {
  full_name : string;
  module : module_kind;
}.

(** Initializers: one of the host library, or [ConstantStdInit(init, div)]
    wrapped around another.  The class [ConstantStdInit] is imported from
    [hk_mup/init.py]; here it is the value its constructor call builds. *)
Inductive Initializer (F : Type) : Type :=
| HostInitializer (label : string)
| ConstantStdInit (init : Initializer F) (div : pynum F).
Arguments HostInitializer {F} label.
Arguments ConstantStdInit {F} init div.

Section Interceptors.
Context `{Float64 F} `{Array F A} {Dtype Param : Type}.

Definition get_self : action F (Mup F) := Action (λ self, (self, inr self)).

(** [mup_ctx.readout_mults[parent] = width_mult] *)
Definition set_readout_mult (parent : string) (width_mult : pynum F) : action F unit :=
  Action (λ self,
    (mkMup (base_shapes self) (<[parent := width_mult]> (readout_mults self))
           (_adam_lrs self) (_sgd_lrs self),
     inr ())).

(** The body of [_mup_creator] once [mup_ctx] is known not to be [None];
    the state is the object [mup_ctx] refers to. *)
Definition _mup_creator_on
    (next_creator : Shape → Dtype → Initializer F → Param)
    (shape : Shape) (dtype : Dtype) (init : Initializer F) (context : Context)
    : action F Param :=
  mup_ctx ← get_self;
  '(n_inf, inf_ratios) ← lift (_get_inf_ratios mup_ctx (full_name context) shape);
  let full_name := full_name context in
  '(parent, _) ← lift (unpack2 (rsplit slash full_name));
  width_mult ← (if (n_inf =? 0)%nat then mret one_int else lift (index inf_ratios 0));
  _ ← (if (n_inf =? 2)%nat then
         second ← lift (index inf_ratios 1);
         fanin_fanout_ratio ← lift (truediv width_mult second);
         sgd_lr ← lift (truediv one_int fanin_fanout_ratio);
         adam_lr ← lift (truediv one_int width_mult);
         set_lrs full_name sgd_lr adam_lr
       else if (n_inf =? 1)%nat then
         set_lrs full_name width_mult one_float
       else
         set_lrs full_name one_float one_float);
  let is_readout_w := isinstance_Readout (module context) && (n_inf =? 1)%nat in
  init ← (if is_readout_w then
            div ← lift (truediv one_int width_mult);
            _ ← set_readout_mult parent width_mult;
            mret (ConstantStdInit init div)
          else mret init);
  mret (next_creator shape dtype init).

(** [_mup_creator]: [mup_ctx] is a reference to the session object or
    [None]; the object comes back as the call leaves it. *)
Definition _mup_creator
    (next_creator : Shape → Dtype → Initializer F → Param)
    (shape : Shape) (dtype : Dtype) (init : Initializer F) (context : Context)
    (mup_ctx : option (Mup F)) : option (Mup F) * result Param :=
  match mup_ctx with
  | None => (None, raise NoActiveSession)
  | Some self =>
      let '(self', r) := run (_mup_creator_on next_creator shape dtype init context) self in
      (Some self', r)
  end.

(** [_mup_getter] *)
Definition _mup_getter (next_getter : A → A) (value : A) (context : Context)
    (mup_ctx : Mup F) : result A :=
  let val := next_getter value in
  if negb (isinstance_Readout (module context)) then mret val
  else
    parent ← index (rsplit slash (full_name context)) 0;
    match readout_mults mup_ctx !! parent with
    | None => mret val
    | Some width_mult =>
        if negb (truthy width_mult) then mret val
        else mret (array_div val width_mult)
    end.
End Interceptors.

(** ** The session context *)

(** What the context variable [_mup_context] holds: a reference to the
    session object under study, or to some other session object. *)
Inductive session_ref : Type :=
| This
| Other (id : nat).

#[global] Instance session_ref_eq_dec : EqDecision session_ref.
Proof. solve_decision. Defined.

(** The process: the session object and the context variable, whose
    default is [None]. *)
Record World (F : Type) : Type := mkWorld {
  self_ : Mup F;
  _mup_context : option session_ref;
}.
Arguments mkWorld {F}.
Arguments self_ {F}.
Arguments _mup_context {F}.

(** A token of [ContextVar.set]: the value the variable held before. *)
Definition Token : Type := option session_ref.

Section SessionContext.
Context {F : Type}.

Definition set_base_shapes (shapes : option BaseShapes) (self : Mup F) : Mup F :=
  mkMup shapes (readout_mults self) (_adam_lrs self) (_sgd_lrs self).

(** [init_context] up to its [yield]: what [__enter__] of the context
    manager runs.  The re-use check comes after the two assignments and
    before the [try]. *)
Definition init_context_enter (shapes : BaseShapes) (w : World F)
    : World F * result Token :=
  let self := set_base_shapes (Some shapes) (self_ w) in
  let token := _mup_context w in
  let w := mkWorld self (Some This) in
  if negb (size (_adam_lrs self) =? 0)%nat then (w, raise SessionReuse)
  else (w, mret token).

(** The [finally] block, run when the body returns and when it raises. *)
Definition init_context_exit (token : Token) (w : World F) : World F :=
  mkWorld (set_base_shapes None (self_ w)) token.

(** [with self.init_context(shapes): body] *)
Definition init_context {R} (shapes : BaseShapes)
    (body : World F → World F * result R) (w : World F) : World F * result R :=
  match init_context_enter shapes w with
  | (w, inl e) => (w, inl e)
  | (w, inr token) =>
      let '(w, r) := body w in
      (init_context_exit token w, r)
  end.

(** [apply_mup]: the reference the creator is bound to when one is
    installed, [None] when none is. *)
Definition apply_mup (w : World F) : option session_ref :=
  let ctx := _mup_context w in
  let is_init := bool_decide (ctx ≠ None) in
  if is_init then ctx else None.
End SessionContext.

(** ** The optimizer wrapper *)

(** Parameter trees as Haiku has them: module name, then parameter name. *)
Abbreviation Tree V := (gmap string (gmap string V)).

(** The key structure of a tree. *)
Definition keys2 {V} (t : Tree V) : gmap string (gset string) := dom <$> t.

(** [jax.tree_map(f, t1, t2)]: the two trees must have the same keys;
    [f] is applied leaf by leaf. *)
Definition tree_map2 {X Y Z'} (f : X → Y → Z') (t1 : Tree X) (t2 : Tree Y)
    : result (Tree Z') :=
  if decide (keys2 t1 = keys2 t2) then
    mret (map_zip_with (M:=gmap string) (map_zip_with (M:=gmap string) f) t1 t2)
  else raise TreeStructureError.

(** [optax.GradientTransformation] over updates [U], state [S] and
    parameters [P]. *)
Record GradientTransformation (U S P : Type) : Type := mkGradientTransformation {
  init_fn : P → S;
  update_fn : U → S → option P → result (U * S);
}.
Arguments mkGradientTransformation {U S P}.
Arguments init_fn {U S P}.
Arguments update_fn {U S P}.

(** [optax.chain] of two transformations: the second is given the
    updates the first returns, each keeps its own state. *)
Definition chain {U S1 S2 P} (t1 : GradientTransformation U S1 P)
    (t2 : GradientTransformation U S2 P) : GradientTransformation U (S1 * S2) P :=
  mkGradientTransformation
    (λ params, (init_fn t1 params, init_fn t2 params))
    (λ updates state params,
       '(updates, s1) ← update_fn t1 updates state.1 params;
       '(updates, s2) ← update_fn t2 updates state.2 params;
       mret (updates, (s1, s2))).

(** [optax.EmptyState()] *)
Inductive EmptyState : Type := mkEmptyState.

Section Optimizer.
Context `{Float64 F} `{Array F A} {S P : Type}.

(** The second stage [wrap_optimizer] builds.  Its [update_fn] reads
    the registries of [self] when it is called, so the stage is given
    for the session object as it is at that time. *)
Definition scale_stage (adam : bool) (self : Mup F)
    : GradientTransformation (Tree A) EmptyState P :=
  mkGradientTransformation
    (λ params, mkEmptyState)
    (λ updates state params,
       updates ← tree_map2 (λ update scale, array_mul update scale)
                   updates (if adam then _adam_lrs self else _sgd_lrs self);
       mret (updates, state)).

(** [Mup.wrap_optimizer] *)
Definition wrap_optimizer (self : Mup F)
    (optimizer : GradientTransformation (Tree A) S P) (adam : bool)
    : result (Mup F → GradientTransformation (Tree A) (S * EmptyState) P) :=
  if (size (_adam_lrs self) =? 0)%nat then raise EmptyRegistry
  else mret (λ self, chain optimizer (scale_stage adam self)).
End Optimizer.

(** ** Shapes of a parameter tree *)

(** Arrays have a shape. *)
Class Shaped (A : Type) : Type := {
  array_shape : A → Shape;
}.

(** [jax.tree_map(f, t)] on one tree *)
Definition tree_map1 {X Y} (f : X → Y) (t : Tree X) : Tree Y :=
  fmap (M:=gmap string) (fmap (M:=gmap string) f) t.

(** [get_shapes] *)
Definition get_shapes `{Shaped A} (params : Tree A) : BaseShapes :=
  tree_map1 array_shape params.

(** ** Exact arithmetic as a model of the float operations *)

(** Exact arithmetic: rationals in lowest terms. *)
#[global] Instance exact_floats : Float64 Q := {|
  float_of_int := inject_Z;
  int_truediv a b := Qred (inject_Z a / inject_Z b);
  float_div x y := Qred (x / y);
  float_is_zero x := Qeq_bool x 0;
|}.

#[global] Instance exact_arrays : Array Q (list Q) := {|
  array_div xs y := (λ x, Qred (x / to_float y)) <$> xs;
  array_mul xs y := (λ x, Qred (x * to_float y)) <$> xs;
|}.

(** Arrays of one dimension. *)
#[global] Instance exact_shapes : Shaped (list Q) := {|
  array_shape xs := [Z.of_nat (length xs)];
|}.

(** * Specification-side definitions *)

(** ** Names *)

(** The decomposition the specification describes: a full name cut at
    its last separator into (parent scope, local name); [None] when the
    name has no separator. *)
Fixpoint split_at_last (sep : ascii) (s : string) : option (string * string) :=
  match s with
  | EmptyString => None
  | String c rest =>
      match split_at_last sep rest with
      | Some (parent, name) => Some (String c parent, name)
      | None => if Ascii.eqb c sep then Some (EmptyString, rest) else None
      end
  end.

(** The number of separators in a name. *)
Fixpoint count_sep (sep : ascii) (s : string) : nat :=
  match s with
  | EmptyString => 0
  | String c rest => (if Ascii.eqb c sep then 1 else 0) + count_sep sep rest
  end.

(** ** Shapes, session objects and their histories *)

Section Specification.
Context `{Float64 F} {Dtype Param : Type}.
Implicit Types (self later : Mup F) (w : World F) (shape base : Shape) (context : Context).

(** The positions at which two shapes of equal length differ, in
    dimension order. *)
Definition differing_positions (base shape : Shape) : list nat :=
  filter (λ i, base !! i ≠ shape !! i) (seq 0 (length base)).

(** The size of dimension [i]. *)
Definition dim (s : Shape) (i : nat) : Z := default 0 (s !! i).

(** The ratio of dimension [i]: actual size over base size. *)
Definition ratio_at (base shape : Shape) (i : nat) : pynum F :=
  PyFloat (int_truediv (dim shape i) (dim base i)).

(** The hypotheses under which the creator finds the base shape of the
    parameter it is called for. *)
Definition finds_base self context shape parent name base : Prop :=
  rsplit slash (full_name context) = [parent; name] ∧
  (∃ shapes, base_shapes self = Some shapes ∧ lookup2 parent name shapes = Some base) ∧
  length base = length shape ∧
  Forall (λ a, 0 < a) base.

(** The session object after [set_lrs] has written both registries. *)
Definition with_lrs (parent name : string) (sgd_lr adam_lr : pynum F) self : Mup F :=
  mkMup (base_shapes self) (readout_mults self)
        (setitem2 parent name adam_lr (_adam_lrs self))
        (setitem2 parent name sgd_lr (_sgd_lrs self)).

(** The session object after [readout_mults[parent] = width_mult]. *)
Definition with_readout_mult (parent : string) (width_mult : pynum F) self : Mup F :=
  mkMup (base_shapes self) (<[parent := width_mult]> (readout_mults self))
        (_adam_lrs self) (_sgd_lrs self).

(** The learning-rate registry holds nothing. *)
Definition lr_registry_empty self : Prop :=
  _sgd_lrs self = ∅ ∧ _adam_lrs self = ∅.

(** The two halves of the registry have the same keys. *)
Definition registries_mirror self : Prop :=
  keys2 (_sgd_lrs self) = keys2 (_adam_lrs self).

(** The calls that change the session object or the context variable. *)
Inductive call : Type :=
| CallEnter (shapes : BaseShapes)
| CallExit (token : Token)
| CallCreator (shape : Shape) (init : Initializer F) (context : Context)
| CallSetLrs (full_name : string) (sgd_lr adam_lr : pynum F).

(** The world after a call, whether it returned or raised. *)
Definition perform (c : call) w : World F :=
  match c with
  | CallEnter shapes => (init_context_enter shapes w).1
  | CallExit token => init_context_exit token w
  | CallCreator shape init context =>
      mkWorld (run (_mup_creator_on (λ _ _ _, ()) shape () init context) (self_ w)).1
              (_mup_context w)
  | CallSetLrs full_name sgd_lr adam_lr =>
      mkWorld (run (set_lrs full_name sgd_lr adam_lr) (self_ w)).1 (_mup_context w)
  end.

(** The world after a sequence of calls on a fresh session object. *)
Definition after_calls (cs : list call) : World F :=
  foldl (λ w c, perform c w) (mkWorld Mup_init None) cs.

(** Every recorded readout multiplier is truthy. *)
Definition mults_truthy self : Prop :=
  map_Forall (λ _ m, truthy m = true) (readout_mults self).

(** The invariant of a session object. *)
Definition session_inv self : Prop := registries_mirror self ∧ mults_truthy self.

(** [c] keeps the invariant, raising or not, and what it returns
    satisfies [Q]. *)
Definition keeps_inv {X} (c : action F X) (Q : X → Prop) : Prop :=
  ∀ self, session_inv self →
    session_inv (run c self).1 ∧ ∀ x, (run c self).2 = inr x → Q x.

(** The session object after the creator has run on [self], whether it
    returned or raised. *)
Definition session_after_creator (next_creator : Shape → Dtype → Initializer F → Param)
    shape dtype (init : Initializer F) context self : Mup F :=
  (run (_mup_creator_on next_creator shape dtype init context) self).1.

(** The learning-rate registry holds [sgd_lr] and [adam_lr] under
    (parent, name). *)
Definition records_lrs (parent name : string) (sgd_lr adam_lr : pynum F) self : Prop :=
  lookup2 parent name (_sgd_lrs self) = Some sgd_lr ∧
  lookup2 parent name (_adam_lrs self) = Some adam_lr.

(** Modelled from the spec: the class [ConstantStdInit] of
    [hk_mup/init.py] is not among the sources, only its constructor call
    [ConstantStdInit(init, div=1 / width_mult)] is.  The specification
    says of that call that it rescales the initializer "so its generated
    standard deviation is divided by width_mult": [init'] is [init] with
    its standard deviation divided by [width_mult] when it is that
    wrapper. *)
Definition std_divided_by (width_mult : pynum F) (init init' : Initializer F) : Prop :=
  ∃ div, truediv one_int width_mult = inr div ∧ init' = ConstantStdInit init div.

(** The tree the scaling stage multiplies by. *)
Definition scale_tree (adam : bool) later : Tree (pynum F) :=
  if adam then _adam_lrs later else _sgd_lrs later.

(** [self'] is [self] but for the entries of the parameter [fn]: the
    base shapes are the same, and so is every entry of the three
    registries that is not under the name [fn] splits into. *)
Definition same_but_for (fn : string) self self' : Prop :=
  base_shapes self' = base_shapes self ∧
  (∀ parent name, rsplit slash fn ≠ [parent; name] →
     lookup2 parent name (_sgd_lrs self') = lookup2 parent name (_sgd_lrs self) ∧
     lookup2 parent name (_adam_lrs self') = lookup2 parent name (_adam_lrs self)) ∧
  (∀ parent, (∀ name, rsplit slash fn ≠ [parent; name]) →
     readout_mults self' !! parent = readout_mults self !! parent).

(** Every key of the three registries of [self] is a key in [self']. *)
Definition keeps_keys self self' : Prop :=
  (∀ parent name, is_Some (lookup2 parent name (_sgd_lrs self)) →
                  is_Some (lookup2 parent name (_sgd_lrs self'))) ∧
  (∀ parent name, is_Some (lookup2 parent name (_adam_lrs self)) →
                  is_Some (lookup2 parent name (_adam_lrs self'))) ∧
  (∀ parent, is_Some (readout_mults self !! parent) →
             is_Some (readout_mults self' !! parent)).

(** The call [c] is one for the parameter (parent, name): a call of the
    creator or of [set_lrs] whose full name splits into the two. *)
Definition call_for (c : call) (parent name : string) : Prop :=
  match c with
  | CallCreator _ _ context => rsplit slash (full_name context) = [parent; name]
  | CallSetLrs fn _ _ => rsplit slash fn = [parent; name]
  | CallEnter _ | CallExit _ => False
  end.

(** The call [c] is a call of the creator for a parameter of the Readout
    module [parent]. *)
Definition readout_call_for (c : call) (parent : string) : Prop :=
  match c with
  | CallCreator _ _ context =>
      module context = Readout ∧ ∃ name, rsplit slash (full_name context) = [parent; name]
  | _ => False
  end.

(** The error of a parameter that has no base shape. *)
Definition missing_base_shape_error (stored : option BaseShapes) (parent name : string) : exn :=
  match stored with
  | None => TypeError
  | Some shapes =>
      match shapes !! parent with
      | None => KeyError parent
      | Some _ => KeyError name
      end
  end.

(** The exceptions the expressions of the creator raise. *)
Definition creator_error (e : exn) : Prop :=
  match e with
  | UnpackError _ | TypeError | KeyError _ | ZeroDivisionError
  | TooManyInfiniteDimensions _ _ => True
  | _ => False
  end.

(** The ways a call of the creator ends: it raises with the session
    object as it was; it records the two rates and returns, or raises at
    [1 / width_mult]; or, for a Readout, it records the rates and the
    multiplier and returns with the wrapped initializer. *)
Inductive creator_outcome (next_creator : Shape → Dtype → Initializer F → Param)
    shape dtype (init : Initializer F) context self : Mup F → result Param → Prop :=
| outcome_raised e :
    creator_error e →
    creator_outcome next_creator shape dtype init context self self (inl e)
| outcome_recorded parent name sgd_lr adam_lr :
    rsplit slash (full_name context) = [parent; name] →
    creator_outcome next_creator shape dtype init context self
      (with_lrs parent name sgd_lr adam_lr self) (inr (next_creator shape dtype init))
| outcome_recorded_raised parent name width_mult :
    rsplit slash (full_name context) = [parent; name] →
    module context = Readout →
    truthy width_mult = false →
    creator_outcome next_creator shape dtype init context self
      (with_lrs parent name width_mult one_float self) (inl ZeroDivisionError)
| outcome_readout parent name width_mult div :
    rsplit slash (full_name context) = [parent; name] →
    module context = Readout →
    truediv one_int width_mult = inr div →
    creator_outcome next_creator shape dtype init context self
      (with_readout_mult parent width_mult
         (with_lrs parent name width_mult one_float self))
      (inr (next_creator shape dtype (ConstantStdInit init div))).

End Specification.

(** ** Worked examples *)

(** Base shapes of a small network: a square layer with its bias, a
    readout layer and a convolution. *)
Definition example_shapes : BaseShapes :=
  <["linear" := <["w" := [128; 128]]> (<["b" := [128]]> ∅)]>
    (<["readout" := <["w" := [128; 10]]> ∅]>
       (<["conv" := <["w" := [3; 3; 16; 16]]> ∅]> ∅)).

(** A fresh session object inside its context. *)
Definition example_session {F} : Mup F := set_base_shapes (Some example_shapes) Mup_init.

Definition example_init {F} : Initializer F := HostInitializer "truncated_normal".

(** The creation step of the host: here it hands back what it was given. *)
Definition example_next_creator {F} (shape : Shape) (dtype : string) (init : Initializer F)
    : Shape * string * Initializer F :=
  (shape, dtype, init).

(** A wide readout layer is initialized, then the context is left. *)
Definition example_calls {F} : list (call (F:=F)) :=
  [CallEnter example_shapes;
   CallCreator [1024; 10] example_init (mkContext "readout/w" Readout);
   CallExit None].

(** The body of a context: the creator bound to the session object runs
    once, for the readout weight. *)
Definition example_body {F} `{Float64 F} (w : World F)
    : World F * result (Shape * string * Initializer F) :=
  let '(self, r) :=
    run (_mup_creator_on example_next_creator [1024; 10] "float32" example_init
           (mkContext "readout/w" Readout)) (self_ w) in
  (mkWorld self (_mup_context w), r).

(** An optimizer that passes the updates on, with no state. *)
Definition example_optimizer {A P} : GradientTransformation (Tree A) unit P :=
  mkGradientTransformation (λ _, ()) (λ updates state _, inr (updates, state)).

Definition example_updates : Tree (list Q) := <["readout" := <["w" := [2 # 1; 1 # 4]]> ∅]> ∅.

(** Base shapes of a nested module, keyed as Haiku keys its parameters:
    by the path of the module, then by the name of the parameter. *)
Definition nested_shapes : BaseShapes := <["mlp/linear" := <["w" := [128]]> ∅]> ∅.

(** Base shapes of a Readout module mlp that holds a weight of its own. *)
Definition outer_readout_shapes : BaseShapes := <["mlp" := <["w" := [128; 10]]> ∅]> ∅.

(** The weight of mlp is created eight times as wide, then the context is
    left. *)
Definition outer_readout_calls {F} : list (call (F:=F)) :=
  [CallEnter outer_readout_shapes;
   CallCreator [1024; 10] example_init (mkContext "mlp/w" Readout);
   CallExit None].

(** The parameters of a small model, as arrays of one dimension. *)
Definition example_params : Tree (list Q) :=
  <["linear" := <["b" := [1 # 1; 2 # 1; 3 # 1]]> ∅]> ∅.

(** A session object whose base shapes are those of [example_params]. *)
Definition own_session : Mup Q := set_base_shapes (Some (get_shapes example_params)) Mup_init.

(** Base shapes with a dimension of size zero. *)
Definition degenerate_shapes : BaseShapes := <["linear" := <["w" := [0; 128]]> ∅]> ∅.

(** ** Exact arithmetic *)

(** A number above zero, read as a rational. *)
Definition positive_num (x : pynum Q) : Prop := (0 < to_float x)%Q.

(** * Properties *)

(** ** Names *)

Lemma rsplit_length sep s : length (rsplit sep s) = S (count_sep sep s).
Proof.
  induction s as [|c rest IH]; [done|].
  simpl. destruct (Ascii.eqb c sep); simpl; [by rewrite IH|].
  destruct (rsplit sep rest) as [|piece pieces]; simpl in *; lia.
Qed.

Lemma rsplit_one_piece sep s piece :
  rsplit sep s = [piece] → piece = s ∧ split_at_last sep s = None.
Proof.
  revert piece. induction s as [|c rest IH]; intros piece Hs; simpl in *.
  - by inversion Hs.
  - destruct (Ascii.eqb c sep) eqn:Hc.
    + inversion Hs as [[Hp Hrest]].
      pose proof (rsplit_length sep rest) as Hlen. rewrite Hrest in Hlen. done.
    + destruct (rsplit sep rest) as [|p ps] eqn:Hrest.
      { pose proof (rsplit_length sep rest) as Hlen. rewrite Hrest in Hlen. done. }
      inversion Hs; subst. destruct (IH p eq_refl) as [-> ->]. done.
Qed.

(** On a name with exactly one separator the code's split and the
    specification's agree. *)
Lemma rsplit_two_split_at_last sep s parent name :
  rsplit sep s = [parent; name] → split_at_last sep s = Some (parent, name).
Proof.
  revert parent. induction s as [|c rest IH]; intros parent Hs; simpl in *; [done|].
  destruct (Ascii.eqb c sep) eqn:Hc.
  - inversion Hs as [[Hp Hrest]].
    destruct (rsplit_one_piece _ _ _ Hrest) as [-> ->]. done.
  - destruct (rsplit sep rest) as [|p ps] eqn:Hrest; [done|].
    inversion Hs; subst. by rewrite (IH p eq_refl).
Qed.

Lemma rsplit_two_count_sep sep s parent name :
  rsplit sep s = [parent; name] → count_sep sep s = 1%nat.
Proof.
  intros Hs. pose proof (rsplit_length sep s) as Hlen.
  rewrite Hs in Hlen. simpl in Hlen. lia.
Qed.

Lemma unpack2_rsplit_fails sep s :
  count_sep sep s ≠ 1%nat →
  unpack2 (rsplit sep s) = raise (UnpackError (S (count_sep sep s))).
Proof.
  intros Hn. pose proof (rsplit_length sep s) as Hlen.
  destruct (rsplit sep s) as [|a [|b [|c l]]]; simpl in *;
    try (rewrite <- Hlen; reflexivity); lia.
Qed.

(** ** Shape analysis *)

Lemma filter_fmap_list {X Y} (f : X → Y) (P : Y → Prop) `{!∀ y, Decision (P y)}
    (l : list X) :
  filter P (f <$> l) = f <$> filter (P ∘ f) l.
Proof.
  induction l as [|x l IH]; [done|].
  rewrite fmap_cons, !filter_cons, IH. simpl. by destruct (decide (P (f x))).
Qed.

Section ShapeAnalysis.
Context `{Float64 F}.

Lemma differing_positions_cons a b base shape :
  differing_positions (a :: base) (b :: shape) =
    (if decide (a = b) then [] else [0%nat]) ++ (S <$> differing_positions base shape).
Proof.
  unfold differing_positions. simpl length. rewrite <- cons_seq, <- fmap_S_seq.
  rewrite filter_cons, filter_fmap_list. simpl.
  destruct (decide (Some a ≠ Some b)) as [Hne|Heq]; destruct (decide (a = b)) as [->|Hab];
    try done.
  exfalso. apply Heq. congruence.
Qed.

Lemma zip_differing base shape :
  length base = length shape →
  filter (λ '(a, b), a ≠ b) (zip base shape) =
    (λ i, (dim base i, dim shape i)) <$> differing_positions base shape.
Proof.
  revert shape. induction base as [|a base IH]; intros [|b shape] Hlen; try done.
  simpl in Hlen. rewrite differing_positions_cons, fmap_app, <- list_fmap_compose.
  simpl zip. rewrite filter_cons, IH by lia.
  destruct (decide (a ≠ b)), (decide (a = b)); done.
Qed.

Lemma sum_bools_differing base shape :
  length base = length shape →
  sum_bools ((λ '(a, b), negb (a =? b)) <$> zip base shape) =
    length (differing_positions base shape).
Proof.
  revert shape. induction base as [|a base IH]; intros [|b shape] Hlen; try done.
  simpl in Hlen. rewrite differing_positions_cons, length_app, length_fmap.
  unfold sum_bools in *. simpl. rewrite IH by lia.
  destruct (Z.eqb_spec a b), (decide (a = b)); done.
Qed.

Lemma comprehension_ratios base shape (l : list nat) :
  Forall (λ a, a ≠ 0) base →
  Forall (λ i, (i < length base)%nat) l →
  comprehension (λ '(a, b), truediv (F:=F) (PyInt b) (PyInt a))
      ((λ i, (dim base i, dim shape i)) <$> l) =
    mret (ratio_at base shape <$> l).
Proof.
  intros Hbase. induction 1 as [|i l Hi _ IH]; [done|].
  rewrite !fmap_cons. cbn [comprehension]. rewrite IH.
  destruct (lookup_lt_is_Some_2 base i Hi) as [a Ha].
  assert (dim base i ≠ 0) as Hnz.
  { unfold dim. rewrite Ha. simpl.
    exact (Forall_lookup_1 (λ a, a ≠ 0) base i a Hbase Ha). }
  apply Z.eqb_neq in Hnz. unfold truediv, is_zero. rewrite Hnz. done.
Qed.

Lemma differing_positions_bound base shape :
  Forall (λ i, (i < length base)%nat) (differing_positions base shape).
Proof.
  apply Forall_forall. intros i [_ Hi%elem_of_seq]%list_elem_of_filter. lia.
Qed.

(** What [_get_inf_ratios] does once the name decomposes and the base
    shape is found. *)
Lemma _get_inf_ratios_found (mup_ctx : Mup F) fn parent name shapes base shape :
  rsplit slash fn = [parent; name] →
  base_shapes mup_ctx = Some shapes →
  lookup2 parent name shapes = Some base →
  length base = length shape →
  _get_inf_ratios mup_ctx fn shape =
    let n_inf := length (differing_positions base shape) in
    if (2 <? n_inf)%nat then raise (TooManyInfiniteDimensions n_inf fn)
    else
      inf_ratios ← comprehension (λ '(a, b), truediv (PyInt b) (PyInt a))
                     ((λ i, (dim base i, dim shape i)) <$> differing_positions base shape);
      mret (n_inf, inf_ratios).
Proof.
  intros Hfn Hshapes Hbase Hlen. unfold _get_inf_ratios, lookup2 in *.
  rewrite Hfn, Hshapes. simpl. unfold subscript.
  destruct (shapes !! parent) as [of_parent|]; [|done]. simpl in *.
  rewrite Hbase. simpl.
  by rewrite sum_bools_differing, zip_differing.
Qed.
End ShapeAnalysis.

(** ** Running actions *)

Lemma run_bind {F X Y} (c : action F X) (k : X → action F Y) self :
  run (c ≫= k) self =
    match run c self with
    | (self', inl e) => (self', inl e)
    | (self', inr a) => run (k a) self'
    end.
Proof. reflexivity. Qed.

Lemma run_lift_bind {F X Y} (r : result X) (k : X → action F Y) self :
  run (lift r ≫= k) self =
    match r with
    | inl e => (self, inl e)
    | inr a => run (k a) self
    end.
Proof. reflexivity. Qed.

Lemma run_ret {F X} (x : X) (self : Mup F) : run (mret x) self = (self, inr x).
Proof. reflexivity. Qed.

Section SetLrs.
Context `{Float64 F}.

Lemma set_lrs_found fn parent name (sgd_lr adam_lr : pynum F) self :
  rsplit slash fn = [parent; name] →
  run (set_lrs fn sgd_lr adam_lr) self = (with_lrs parent name sgd_lr adam_lr self, inr ()).
Proof. intros Hfn. unfold set_lrs. rewrite run_lift_bind, Hfn. reflexivity. Qed.

Lemma set_lrs_unpack_fails fn (sgd_lr adam_lr : pynum F) self :
  count_sep slash fn ≠ 1%nat →
  run (set_lrs fn sgd_lr adam_lr) self =
    (self, inl (UnpackError (S (count_sep slash fn)))).
Proof.
  intros Hn. unfold set_lrs. rewrite run_lift_bind, unpack2_rsplit_fails by done.
  reflexivity.
Qed.
End SetLrs.

(** ** The creator, case by case *)

Section Creator.
Context `{Float64 F} {Dtype Param : Type}.
Implicit Types (self : Mup F) (shape base : Shape) (context : Context).
Variable next_creator : Shape → Dtype → Initializer F → Param.

Lemma finds_base_ratios self context shape parent name base :
  finds_base self context shape parent name base →
  (length (differing_positions base shape) ≤ 2)%nat →
  _get_inf_ratios self (full_name context) shape =
    inr (length (differing_positions base shape),
         ratio_at base shape <$> differing_positions base shape).
Proof.
  intros (Hfn & (shapes & Hshapes & Hbase) & Hlen & Hpos) Hk.
  rewrite (_get_inf_ratios_found _ _ _ _ _ _ _ Hfn Hshapes Hbase Hlen). simpl.
  destruct (Nat.ltb_spec 2 (length (differing_positions base shape))); [lia|].
  rewrite comprehension_ratios; [done| |apply differing_positions_bound].
  eapply Forall_impl; [exact Hpos|]. simpl. lia.
Qed.

#[local] Arguments truediv : simpl never.
#[local] Arguments set_lrs : simpl never.
#[local] Arguments ratio_at : simpl never.
#[local] Arguments one_int : simpl never.
#[local] Arguments one_float : simpl never.

Ltac creator_eval :=
  cbn [run get_self mret result_ret action_ret unpack2 index Nat.eqb length
       fmap list_fmap lookup list_lookup];
  cbv beta iota zeta.

(** Start the creator: the analysis has succeeded with [n_inf <= 2]. *)
Ltac creator_start Hfind Hdiff :=
  let Hfn := fresh "Hfn" in
  pose proof Hfind as (Hfn & _);
  unfold _mup_creator_on; rewrite run_bind; cbn [run get_self];
  rewrite run_lift_bind, (finds_base_ratios _ _ _ _ _ _ Hfind)
    by (rewrite Hdiff; simpl; lia);
  rewrite Hdiff; creator_eval;
  rewrite run_lift_bind, Hfn; creator_eval;
  first [rewrite run_lift_bind | rewrite run_bind, run_ret]; creator_eval;
  rewrite run_bind.

Lemma creator_no_infinite_dim self context shape dtype init parent name base :
  finds_base self context shape parent name base →
  differing_positions base shape = [] →
  run (_mup_creator_on next_creator shape dtype init context) self =
    (with_lrs parent name one_float one_float self,
     inr (next_creator shape dtype init)).
Proof.
  intros Hfind Hdiff. creator_start Hfind Hdiff.
  rewrite (set_lrs_found _ parent name) by apply Hfind.
  by rewrite andb_false_r.
Qed.

Lemma creator_one_infinite_dim self context shape dtype init parent name base i :
  finds_base self context shape parent name base →
  differing_positions base shape = [i] →
  run (_mup_creator_on next_creator shape dtype init context) self =
    let width_mult := ratio_at base shape i in
    let self := with_lrs parent name width_mult one_float self in
    if isinstance_Readout (module context) then
      match truediv one_int width_mult with
      | inl e => (self, inl e)
      | inr div =>
          (with_readout_mult parent width_mult self,
           inr (next_creator shape dtype (ConstantStdInit init div)))
      end
    else (self, inr (next_creator shape dtype init)).
Proof.
  intros Hfind Hdiff. creator_start Hfind Hdiff.
  rewrite (set_lrs_found _ parent name) by apply Hfind.
  rewrite andb_true_r.
  destruct (isinstance_Readout (module context)); [|done].
  rewrite run_bind, run_lift_bind.
  by destruct (truediv one_int (ratio_at base shape i)).
Qed.

Lemma creator_two_infinite_dims self context shape dtype init parent name base i j :
  finds_base self context shape parent name base →
  differing_positions base shape = [i; j] →
  run (_mup_creator_on next_creator shape dtype init context) self =
    let width_mult := ratio_at base shape i in
    match truediv width_mult (ratio_at base shape j) with
    | inl e => (self, inl e)
    | inr fanin_fanout_ratio =>
        match truediv one_int fanin_fanout_ratio with
        | inl e => (self, inl e)
        | inr sgd_lr =>
            match truediv one_int width_mult with
            | inl e => (self, inl e)
            | inr adam_lr =>
                (with_lrs parent name sgd_lr adam_lr self,
                 inr (next_creator shape dtype init))
            end
        end
    end.
Proof.
  intros Hfind Hdiff. creator_start Hfind Hdiff.
  rewrite run_lift_bind. creator_eval. rewrite run_lift_bind.
  destruct (truediv (ratio_at base shape i) (ratio_at base shape j)) as [|q]; [done|].
  rewrite run_lift_bind. destruct (truediv one_int q) as [|sgd_lr]; [done|].
  rewrite run_lift_bind.
  destruct (truediv one_int (ratio_at base shape i)) as [|adam_lr]; [done|].
  rewrite (set_lrs_found _ parent name) by apply Hfind.
  by rewrite andb_false_r.
Qed.
End Creator.

(** ** Registries *)

Lemma lookup2_setitem2_eq {V} parent name (v : V) (d : Tree V) :
  lookup2 parent name (setitem2 parent name v d) = Some v.
Proof.
  unfold lookup2, setitem2. rewrite lookup_insert_eq. simpl. apply lookup_insert_eq.
Qed.

Lemma lookup2_setitem2_ne {V} parent name parent' name' (v : V) (d : Tree V) :
  (parent, name) ≠ (parent', name') →
  lookup2 parent' name' (setitem2 parent name v d) = lookup2 parent' name' d.
Proof.
  intros Hne. unfold lookup2, setitem2.
  destruct (decide (parent = parent')) as [<-|Hp].
  - rewrite lookup_insert_eq. simpl. rewrite lookup_insert_ne by congruence.
    destruct (d !! parent); [done|]. simpl. apply lookup_empty.
  - by rewrite lookup_insert_ne.
Qed.

Lemma keys2_setitem2 {V} parent name (v : V) (d : Tree V) :
  keys2 (setitem2 parent name v d) =
    <[parent := {[name]} ∪ default ∅ (keys2 d !! parent)]> (keys2 d).
Proof.
  unfold keys2, setitem2. rewrite fmap_insert, dom_insert_L, lookup_fmap.
  destruct (d !! parent); simpl; [done|]. by rewrite dom_empty_L.
Qed.

Lemma keys2_size {V} (d : Tree V) : size (keys2 d) = size d.
Proof. apply map_size_fmap. Qed.

Lemma lookup2_keys2 {V W} (d : Tree V) (d' : Tree W) parent name :
  keys2 d = keys2 d' → is_Some (lookup2 parent name d) → is_Some (lookup2 parent name d').
Proof.
  intros Hkeys [v Hv]. unfold lookup2 in *.
  assert (keys2 d !! parent = keys2 d' !! parent) as Hp by (by rewrite Hkeys).
  unfold keys2 in Hp. rewrite !lookup_fmap in Hp.
  destruct (d !! parent) as [inner|]; [|done].
  destruct (d' !! parent) as [inner'|]; [|done].
  simpl in *. apply elem_of_dom. injection Hp as <-. apply elem_of_dom. eauto.
Qed.

Lemma registries_mirror_with_lrs {F} parent name (sgd_lr adam_lr : pynum F) self :
  registries_mirror self → registries_mirror (with_lrs parent name sgd_lr adam_lr self).
Proof.
  unfold registries_mirror. simpl. intros Hm. by rewrite !keys2_setitem2, Hm.
Qed.

Lemma registries_mirror_empty {F} (self : Mup F) :
  registries_mirror self →
  (size (_adam_lrs self) = 0%nat ↔ lr_registry_empty self).
Proof.
  unfold registries_mirror, lr_registry_empty. intros Hm.
  assert (size (_sgd_lrs self) = size (_adam_lrs self)) as Hsize
    by (by rewrite <- !keys2_size, Hm).
  rewrite <- !map_size_empty_iff. lia.
Qed.

(** ** Histories of a session object *)

Section History.
Context `{Float64 F}.
Implicit Types (self : Mup F) (w : World F).

Lemma after_calls_snoc cs c : after_calls (cs ++ [c]) = perform c (after_calls cs).
Proof. unfold after_calls. by rewrite foldl_app. Qed.

Lemma truediv_defined (x y d : pynum F) : truediv x y = inr d → truthy y = true.
Proof. unfold truediv, truthy. by destruct (is_zero y). Qed.

Lemma unpack2_inr {X} (xs : list X) a b : unpack2 xs = inr (a, b) → xs = [a; b].
Proof.
  destruct xs as [|x [|y [|z l]]]; cbv [unpack2 raise mret result_ret];
    intros Hx; by simplify_eq.
Qed.

Lemma set_lrs_effect fn (sgd_lr adam_lr : pynum F) self :
  (run (set_lrs fn sgd_lr adam_lr) self).1 = self ∨
  ∃ parent name, rsplit slash fn = [parent; name] ∧
    run (set_lrs fn sgd_lr adam_lr) self = (with_lrs parent name sgd_lr adam_lr self, inr ()).
Proof.
  unfold set_lrs. rewrite run_lift_bind.
  destruct (unpack2 (rsplit slash fn)) as [e|[parent name]] eqn:Hfn; [by left|].
  right. exists parent, name. split; [by apply unpack2_inr|done].
Qed.

Lemma session_inv_with_lrs parent name (sgd_lr adam_lr : pynum F) self :
  session_inv self → session_inv (with_lrs parent name sgd_lr adam_lr self).
Proof. intros [Hm Ht]. split; [by apply registries_mirror_with_lrs|done]. Qed.

Lemma session_inv_with_readout_mult parent (width_mult : pynum F) self :
  truthy width_mult = true →
  session_inv self → session_inv (with_readout_mult parent width_mult self).
Proof. intros Hw [Hm Ht]. split; [done|]. by apply map_Forall_insert_2. Qed.

Lemma session_inv_set_lrs fn (sgd_lr adam_lr : pynum F) self :
  session_inv self → session_inv (run (set_lrs fn sgd_lr adam_lr) self).1.
Proof.
  intros Hinv. destruct (set_lrs_effect fn sgd_lr adam_lr self) as [->|(p & n & _ & ->)];
    [done|]. by apply session_inv_with_lrs.
Qed.
End History.

(** ** The invariant of a session object *)

Section Invariant.
Context `{Float64 F}.
Implicit Types (self : Mup F).

Lemma keeps_inv_ret {X} (x : X) (Q : X → Prop) : Q x → keeps_inv (mret x) Q.
Proof. intros HQ self Hinv. split; [done|]. simpl. by intros ? [= <-]. Qed.

Lemma keeps_inv_lift {X} (r : result X) (Q : X → Prop) :
  (∀ x, r = inr x → Q x) → keeps_inv (lift r) Q.
Proof. intros HQ self Hinv. split; [done|]. simpl. auto. Qed.

Lemma keeps_inv_bind {X Y} (c : action F X) (k : X → action F Y)
    (Q : X → Prop) (R : Y → Prop) :
  keeps_inv c Q → (∀ x, Q x → keeps_inv (k x) R) → keeps_inv (c ≫= k) R.
Proof.
  intros Hc Hk self Hinv. rewrite run_bind.
  destruct (Hc self Hinv) as [Hinv' HQ].
  destruct (run c self) as [self' [e|x]]; simpl in *; [done|].
  apply Hk; auto.
Qed.

Lemma keeps_inv_weaken {X} (c : action F X) (Q : X → Prop) :
  keeps_inv c Q → keeps_inv c (λ _, True).
Proof. intros Hc self Hinv. split; [by apply Hc|done]. Qed.

Lemma keeps_inv_get_self : keeps_inv get_self (λ _, True).
Proof. intros self Hinv. done. Qed.

Lemma keeps_inv_set_lrs fn (sgd_lr adam_lr : pynum F) :
  keeps_inv (set_lrs fn sgd_lr adam_lr) (λ _, True).
Proof. intros self Hinv. split; [by apply session_inv_set_lrs|done]. Qed.

Lemma keeps_inv_set_readout_mult parent (width_mult : pynum F) :
  truthy width_mult = true →
  keeps_inv (set_readout_mult parent width_mult) (λ _, True).
Proof.
  intros Hw self Hinv. split; [|done].
  by apply (session_inv_with_readout_mult parent width_mult self).
Qed.

Lemma keeps_inv_creator {Dtype Param} (next_creator : Shape → Dtype → Initializer F → Param)
    shape dtype init context :
  keeps_inv (_mup_creator_on next_creator shape dtype init context) (λ _, True).
Proof.
  unfold _mup_creator_on.
  eapply keeps_inv_bind; [apply keeps_inv_get_self|]. intros mup_ctx _.
  eapply (keeps_inv_bind _ _ (λ _, True)); [by apply keeps_inv_lift|].
  intros [n_inf inf_ratios] _.
  eapply (keeps_inv_bind _ _ (λ _, True)); [by apply keeps_inv_lift|].
  intros [parent name] _.
  eapply (keeps_inv_bind _ _ (λ _, True)).
  { destruct (n_inf =? 0)%nat; [by apply keeps_inv_ret|by apply keeps_inv_lift]. }
  intros width_mult _.
  eapply (keeps_inv_bind _ _ (λ _, True)).
  { destruct (n_inf =? 2)%nat; [|destruct (n_inf =? 1)%nat; apply keeps_inv_set_lrs].
    eapply (keeps_inv_bind _ _ (λ _, True)); [by apply keeps_inv_lift|]. intros second _.
    eapply (keeps_inv_bind _ _ (λ _, True)); [by apply keeps_inv_lift|]. intros ratio _.
    eapply (keeps_inv_bind _ _ (λ _, True)); [by apply keeps_inv_lift|]. intros sgd_lr _.
    eapply (keeps_inv_bind _ _ (λ _, True)); [by apply keeps_inv_lift|]. intros adam_lr _.
    apply keeps_inv_set_lrs. }
  intros _ _.
  eapply (keeps_inv_bind _ _ (λ _, True)); [|intros; by apply keeps_inv_ret].
  destruct (isinstance_Readout (module context) && (n_inf =? 1)%nat);
    [|by apply keeps_inv_ret].
  eapply (keeps_inv_bind _ _ (λ _, truthy width_mult = true)).
  { apply keeps_inv_lift. intros div Hdiv. by eapply truediv_defined. }
  intros div Hw.
  eapply (keeps_inv_bind _ _ (λ _, True)); [by apply keeps_inv_set_readout_mult|].
  intros; by apply keeps_inv_ret.
Qed.

Lemma session_inv_init : session_inv (Mup_init (F:=F)).
Proof. split; [done|]. unfold mults_truthy. simpl. apply map_Forall_empty. Qed.

Lemma session_inv_perform (c : call) (w : World F) :
  session_inv (self_ w) → session_inv (self_ (perform c w)).
Proof.
  intros Hinv.
  destruct c as [shapes|token|shape init context|fn sgd_lr adam_lr]; cbn [perform self_].
  - unfold init_context_enter. simpl.
    by destruct (negb (size (_adam_lrs (self_ w)) =? 0)%nat).
  - done.
  - by apply keeps_inv_creator.
  - by apply session_inv_set_lrs.
Qed.

Lemma session_inv_after_calls (cs : list call) : session_inv (self_ (after_calls cs)).
Proof.
  induction cs as [|c cs IH] using rev_ind; [apply session_inv_init|].
  rewrite after_calls_snoc. by apply session_inv_perform.
Qed.
End Invariant.

(** ** The claims about the shape analysis and the creator *)

Section CreatorClaims.
Context `{Float64 F} {Dtype Param : Type}.
Implicit Types (self : Mup F) (shape base : Shape) (context : Context).

Lemma records_lrs_with_lrs parent name (sgd_lr adam_lr : pynum F) self :
  records_lrs parent name sgd_lr adam_lr (with_lrs parent name sgd_lr adam_lr self).
Proof. split; apply lookup2_setitem2_eq. Qed.

(** [_mup_creator] with and without a session object. *)
Lemma _mup_creator_active (next_creator : Shape → Dtype → Initializer F → Param)
    shape dtype init context self :
  _mup_creator next_creator shape dtype init context (Some self) =
    (Some (session_after_creator next_creator shape dtype init context self),
     (run (_mup_creator_on next_creator shape dtype init context) self).2).
Proof.
  unfold _mup_creator, session_after_creator.
  by destruct (run (_mup_creator_on next_creator shape dtype init context) self).
Qed.

Lemma _mup_creator_no_session (next_creator : Shape → Dtype → Initializer F → Param)
    shape dtype init context :
  _mup_creator next_creator shape dtype init context None = (None, inl NoActiveSession).
Proof. reflexivity. Qed.

(** C2.  For a base shape of positive sizes and an actual shape of the
    same length that differ at exactly [k <= 2] positions,
    [_get_inf_ratios] returns [k] and the ratios actual / base of exactly
    the differing positions, in dimension order. *)
Theorem get_inf_ratios_counts_and_orders (mup_ctx : Mup F) fn parent name shapes base shape k :
  rsplit slash fn = [parent; name] →
  base_shapes mup_ctx = Some shapes →
  lookup2 parent name shapes = Some base →
  length base = length shape →
  Forall (λ a, 0 < a) base →
  length (differing_positions base shape) = k →
  (k ≤ 2)%nat →
  _get_inf_ratios mup_ctx fn shape =
    inr (k, ratio_at base shape <$> differing_positions base shape).
Proof.
  intros Hfn Hshapes Hbase Hlen Hpos <- Hk.
  rewrite (_get_inf_ratios_found _ _ _ _ _ _ _ Hfn Hshapes Hbase Hlen). simpl.
  destruct (Nat.ltb_spec 2 (length (differing_positions base shape))); [lia|].
  rewrite comprehension_ratios; [done| |apply differing_positions_bound].
  eapply Forall_impl; [exact Hpos|]. simpl. lia.
Qed.

(** C7.  For shapes of equal length that differ at three or more
    positions, [_get_inf_ratios] raises the error that carries the count
    and the full name, and the creator raises it with the session object
    as it was: nothing is recorded. *)
Theorem too_many_infinite_dimensions_raises
    (next_creator : Shape → Dtype → Initializer F → Param)
    self context shape dtype init parent name shapes base :
  rsplit slash (full_name context) = [parent; name] →
  base_shapes self = Some shapes →
  lookup2 parent name shapes = Some base →
  length base = length shape →
  (3 ≤ length (differing_positions base shape))%nat →
  let error := TooManyInfiniteDimensions (length (differing_positions base shape))
                 (full_name context) in
  _get_inf_ratios self (full_name context) shape = inl error ∧
  _mup_creator next_creator shape dtype init context (Some self) = (Some self, inl error).
Proof.
  intros Hfn Hshapes Hbase Hlen Hk error.
  assert (_get_inf_ratios self (full_name context) shape = inl error) as Hraise.
  { rewrite (_get_inf_ratios_found _ _ _ _ _ _ _ Hfn Hshapes Hbase Hlen). simpl.
    by destruct (Nat.ltb_spec 2 (length (differing_positions base shape))); [|lia]. }
  split; [done|].
  unfold _mup_creator, _mup_creator_on. rewrite run_bind. cbn [run get_self].
  by rewrite run_lift_bind, Hraise.
Qed.

(** C1.  Under an active session whose base shapes hold the parameter,
    the creator records: for no infinite dimension, 1.0 and 1.0; for one,
    [width_mult] and 1.0; for two, [1 / (width_mult / second ratio)] and
    [1 / width_mult]; [width_mult] being the ratio of the first infinite
    dimension. *)
Theorem creator_records_learning_rates
    (next_creator : Shape → Dtype → Initializer F → Param)
    self context shape dtype init parent name base :
  finds_base self context shape parent name base →
  let after := session_after_creator next_creator shape dtype init context self in
  (differing_positions base shape = [] →
     records_lrs parent name one_float one_float after) ∧
  (∀ i, differing_positions base shape = [i] →
     let width_mult := ratio_at base shape i in
     records_lrs parent name width_mult one_float after) ∧
  (∀ i j fanin_fanout_ratio sgd_lr adam_lr,
     differing_positions base shape = [i; j] →
     let width_mult := ratio_at base shape i in
     truediv width_mult (ratio_at base shape j) = inr fanin_fanout_ratio →
     truediv one_int fanin_fanout_ratio = inr sgd_lr →
     truediv one_int width_mult = inr adam_lr →
     records_lrs parent name sgd_lr adam_lr after).
Proof.
  intros Hfind. cbv zeta. unfold session_after_creator. split; [|split].
  - intros Hdiff. rewrite (creator_no_infinite_dim _ _ _ _ _ _ _ _ _ Hfind Hdiff).
    apply records_lrs_with_lrs.
  - intros i Hdiff.
    rewrite (creator_one_infinite_dim _ _ _ _ _ _ _ _ _ _ Hfind Hdiff). cbv zeta.
    destruct (isinstance_Readout (module context)); [|apply records_lrs_with_lrs].
    destruct (truediv one_int (ratio_at base shape i)); apply records_lrs_with_lrs.
  - intros i j q sgd_lr adam_lr Hdiff Hq Hsgd Hadam.
    rewrite (creator_two_infinite_dims _ _ _ _ _ _ _ _ _ _ _ Hfind Hdiff). cbv zeta.
    rewrite Hq, Hsgd, Hadam. apply records_lrs_with_lrs.
Qed.

(** C6.  A Readout module's parameter with exactly one infinite
    dimension gets [width_mult] recorded under its parent and its
    initializer wrapped with [div = 1 / width_mult]; with no or two
    infinite dimensions, or for another module, the readout registry
    stays as it was and the initializer is passed on as it came. *)
Theorem creator_rescales_readout_only
    (next_creator : Shape → Dtype → Initializer F → Param)
    self context shape dtype init parent name base :
  finds_base self context shape parent name base →
  let out := run (_mup_creator_on next_creator shape dtype init context) self in
  let untouched :=
    readout_mults out.1 = readout_mults self ∧
    out.2 = inr (next_creator shape dtype init) in
  (∀ i div, module context = Readout →
     differing_positions base shape = [i] →
     let width_mult := ratio_at base shape i in
     truediv one_int width_mult = inr div →
     readout_mults out.1 = <[parent := width_mult]> (readout_mults self) ∧
     out.2 = inr (next_creator shape dtype (ConstantStdInit init div)) ∧
     std_divided_by width_mult init (ConstantStdInit init div)) ∧
  (∀ i, module context = OtherModule →
     differing_positions base shape = [i] → untouched) ∧
  (differing_positions base shape = [] → untouched) ∧
  (∀ i j fanin_fanout_ratio sgd_lr adam_lr,
     differing_positions base shape = [i; j] →
     let width_mult := ratio_at base shape i in
     truediv width_mult (ratio_at base shape j) = inr fanin_fanout_ratio →
     truediv one_int fanin_fanout_ratio = inr sgd_lr →
     truediv one_int width_mult = inr adam_lr →
     untouched).
Proof.
  intros Hfind. cbv zeta. split; [|split; [|split]].
  - intros i div Hmod Hdiff Hdiv.
    rewrite (creator_one_infinite_dim _ _ _ _ _ _ _ _ _ _ Hfind Hdiff). cbv zeta.
    rewrite Hmod, Hdiv. simpl. repeat split. by exists div.
  - intros i Hmod Hdiff.
    rewrite (creator_one_infinite_dim _ _ _ _ _ _ _ _ _ _ Hfind Hdiff). cbv zeta.
    by rewrite Hmod.
  - intros Hdiff. by rewrite (creator_no_infinite_dim _ _ _ _ _ _ _ _ _ Hfind Hdiff).
  - intros i j q sgd_lr adam_lr Hdiff Hq Hsgd Hadam.
    rewrite (creator_two_infinite_dims _ _ _ _ _ _ _ _ _ _ _ Hfind Hdiff). cbv zeta.
    by rewrite Hq, Hsgd, Hadam.
Qed.
End CreatorClaims.

(** ** The getter *)

Section GetterClaims.
Context `{Float64 F} `{Array F A}.

Lemma getter_not_readout (next_getter : A → A) value context (mup_ctx : Mup F) :
  module context = OtherModule →
  _mup_getter next_getter value context mup_ctx = inr (next_getter value).
Proof. intros Hmod. unfold _mup_getter. by rewrite Hmod. Qed.

Lemma getter_readout (next_getter : A → A) value context (mup_ctx : Mup F) parent name :
  rsplit slash (full_name context) = [parent; name] →
  module context = Readout →
  _mup_getter next_getter value context mup_ctx =
    inr match readout_mults mup_ctx !! parent with
        | None => next_getter value
        | Some width_mult =>
            if truthy width_mult then array_div (next_getter value) width_mult
            else next_getter value
        end.
Proof.
  intros Hfn Hmod. unfold _mup_getter. rewrite Hmod, Hfn. simpl.
  destruct (readout_mults mup_ctx !! parent) as [width_mult|]; [|done].
  by destruct (truthy width_mult).
Qed.

(** For every full name the getter of a Readout looks the multiplier up
    under the first piece of the name. *)
Lemma getter_readout_first_piece (next_getter : A → A) value context (mup_ctx : Mup F)
    piece pieces :
  rsplit slash (full_name context) = piece :: pieces →
  module context = Readout →
  _mup_getter next_getter value context mup_ctx =
    inr match readout_mults mup_ctx !! piece with
        | None => next_getter value
        | Some width_mult =>
            if truthy width_mult then array_div (next_getter value) width_mult
            else next_getter value
        end.
Proof.
  intros Hfn Hmod. unfold _mup_getter. rewrite Hmod, Hfn. simpl.
  destruct (readout_mults mup_ctx !! piece) as [width_mult|]; [|done].
  by destruct (truthy width_mult).
Qed.

(** For a full name with one separator, on a session object reached by
    any calls: a read of a parameter of a module that is not a Readout
    returns the value as it is; of a Readout whose parent has no recorded
    multiplier, the same; of a Readout whose parent has the multiplier
    [m], the value divided by [m]. *)
Theorem getter_divides_readout_values (cs : list call) (next_getter : A → A)
    value context parent name :
  rsplit slash (full_name context) = [parent; name] →
  let mup_ctx := self_ (after_calls cs) in
  let val := next_getter value in
  (module context = OtherModule →
     _mup_getter next_getter value context mup_ctx = inr val) ∧
  (module context = Readout → readout_mults mup_ctx !! parent = None →
     _mup_getter next_getter value context mup_ctx = inr val) ∧
  (∀ m, module context = Readout → readout_mults mup_ctx !! parent = Some m →
     _mup_getter next_getter value context mup_ctx = inr (array_div val m)).
Proof.
  intros Hfn. cbv zeta. split; [|split].
  - apply getter_not_readout.
  - intros Hmod Hnone. by rewrite (getter_readout _ _ _ _ _ _ Hfn Hmod), Hnone.
  - intros m Hmod Hsome. rewrite (getter_readout _ _ _ _ _ _ Hfn Hmod), Hsome.
    destruct (session_inv_after_calls cs) as [_ Htruthy].
    by rewrite (Htruthy parent m Hsome).
Qed.

(** Every multiplier the readout registry holds after any calls is not
    zero: the creator divides by it before it records it. *)
Theorem recorded_multipliers_are_not_zero (cs : list call) parent (m : pynum F) :
  readout_mults (self_ (after_calls cs)) !! parent = Some m → is_zero m = false.
Proof.
  intros Hm. destruct (session_inv_after_calls cs) as [_ Htruthy].
  apply negb_true_iff. exact (Htruthy parent m Hm).
Qed.
End GetterClaims.

(** ** The session context *)

Section SessionClaims.
Context `{Float64 F}.
Implicit Types (self : Mup F) (w : World F).

Lemma init_context_enter_fresh shapes w :
  size (_adam_lrs (self_ w)) = 0%nat →
  init_context_enter shapes w =
    (mkWorld (set_base_shapes (Some shapes) (self_ w)) (Some This), inr (_mup_context w)).
Proof. intros Hsize. unfold init_context_enter. simpl. by rewrite Hsize. Qed.

Lemma init_context_enter_reuse shapes w :
  size (_adam_lrs (self_ w)) ≠ 0%nat →
  init_context_enter shapes w =
    (mkWorld (set_base_shapes (Some shapes) (self_ w)) (Some This), inl SessionReuse).
Proof.
  intros Hsize. unfold init_context_enter. simpl.
  by destruct (Nat.eqb_spec (size (_adam_lrs (self_ w))) 0).
Qed.

(** Leaving the context after a successful entry, by return or by raise
    of the body: the variable is back to what it held at entry, the base
    shapes are gone, the registries are those the body left. *)
Theorem init_context_cleans_up {R} shapes (body : World F → World F * result R) w :
  size (_adam_lrs (self_ w)) = 0%nat →
  let entered := mkWorld (set_base_shapes (Some shapes) (self_ w)) (Some This) in
  let left := (init_context shapes body w).1 in
  (init_context shapes body w).2 = (body entered).2 ∧
  _mup_context left = _mup_context w ∧
  base_shapes (self_ left) = None ∧
  _sgd_lrs (self_ left) = _sgd_lrs (self_ (body entered).1) ∧
  _adam_lrs (self_ left) = _adam_lrs (self_ (body entered).1) ∧
  readout_mults (self_ left) = readout_mults (self_ (body entered).1).
Proof.
  intros Hsize. cbv zeta. unfold init_context.
  rewrite init_context_enter_fresh by done.
  by destruct (body _) as [w' r].
Qed.

(** When entry raises, nothing of the clean-up runs. *)
Lemma init_context_reuse {R} shapes (body : World F → World F * result R) w :
  size (_adam_lrs (self_ w)) ≠ 0%nat →
  init_context shapes body w =
    (mkWorld (set_base_shapes (Some shapes) (self_ w)) (Some This), inl SessionReuse).
Proof.
  intros Hsize. unfold init_context. by rewrite init_context_enter_reuse.
Qed.

(** C8.  On a session object reached by any calls, entering the context
    raises [SessionReuse] when the learning-rate registry holds anything,
    and returns when it holds nothing. *)
Theorem init_context_rejects_reuse (cs : list call) shapes :
  let w := after_calls cs in
  (lr_registry_empty (self_ w) →
     (init_context_enter shapes w).2 = inr (_mup_context w)) ∧
  (¬ lr_registry_empty (self_ w) →
     (init_context_enter shapes w).2 = inl SessionReuse) ∧
  (∀ parent name,
     is_Some (lookup2 parent name (_sgd_lrs (self_ w))) ∨
     is_Some (lookup2 parent name (_adam_lrs (self_ w))) →
     (init_context_enter shapes w).2 = inl SessionReuse).
Proof.
  cbv zeta. destruct (session_inv_after_calls cs) as [Hmirror _].
  pose proof (registries_mirror_empty _ Hmirror) as Hempty.
  assert (¬ lr_registry_empty (self_ (after_calls cs)) →
          (init_context_enter shapes (after_calls cs)).2 = inl SessionReuse) as Hreuse.
  { intros Hne. rewrite init_context_enter_reuse; [done|]. by rewrite Hempty. }
  split; [|split; [done|]].
  - intros Hnil. rewrite init_context_enter_fresh; [done|]. by apply Hempty.
  - intros parent name Hsome. apply Hreuse. intros [Hsgd Hadam].
    unfold lookup2 in Hsome. rewrite Hsgd, Hadam, !lookup_empty in Hsome.
    destruct Hsome as [[? ?]|[? ?]]; done.
Qed.
End SessionClaims.

(** ** Trees and the optimizer wrapper *)

Lemma lookup2_zip_with {X Y Z'} (f : X → Y → Z') (t1 : Tree X) (t2 : Tree Y) parent name :
  lookup2 parent name (map_zip_with (M:=gmap string) (map_zip_with (M:=gmap string) f) t1 t2) =
    (x ← lookup2 parent name t1; y ← lookup2 parent name t2; Some (f x y)).
Proof.
  unfold lookup2. rewrite map_lookup_zip_with.
  destruct (t1 !! parent) as [inner1|]; simpl; [|done].
  destruct (t2 !! parent) as [inner2|]; simpl.
  - apply map_lookup_zip_with.
  - by destruct (inner1 !! name).
Qed.

Lemma keys2_zip_with {X Y Z'} (f : X → Y → Z') (t1 : Tree X) (t2 : Tree Y) :
  keys2 t1 = keys2 t2 →
  keys2 (map_zip_with (M:=gmap string) (map_zip_with (M:=gmap string) f) t1 t2) = keys2 t1.
Proof.
  intros Hkeys. apply map_eq. intros parent.
  assert (keys2 t1 !! parent = keys2 t2 !! parent) as Hp by (by rewrite Hkeys).
  unfold keys2 in *. rewrite !lookup_fmap in *. rewrite map_lookup_zip_with.
  destruct (t1 !! parent) as [inner1|], (t2 !! parent) as [inner2|]; simpl in *; try done.
  f_equal. rewrite dom_map_zip_with_L. injection Hp as Hdom.
  rewrite <- Hdom. apply (idemp_L (∩)).
Qed.

Section OptimizerClaims.
Context `{Float64 F} `{Array F A} {S P : Type}.
Implicit Types (self later : Mup F) (updates : Tree A).

Lemma scale_stage_update adam later updates (state : EmptyState) (params : option P) :
  keys2 updates = keys2 (scale_tree adam later) →
  update_fn (scale_stage adam later) updates state params =
    inr (map_zip_with (M:=gmap string) (map_zip_with (M:=gmap string) array_mul)
           updates (scale_tree adam later), state).
Proof.
  intros Hkeys. unfold scale_stage, tree_map2, scale_tree in *. simpl.
  destruct adam; by rewrite decide_True.
Qed.

(** C9.  On a session object reached by any calls, [wrap_optimizer]
    raises [EmptyRegistry] when the learning-rate registry holds nothing;
    otherwise it returns the chain of the optimizer and a last stage that
    multiplies every update by the entry of the same key in the adam
    tree, or the sgd tree when the flag is false, and returns the state
    it was given. *)
Theorem wrap_optimizer_scales_updates (cs : list call)
    (optimizer : GradientTransformation (Tree A) S P) (adam : bool) :
  let self := self_ (after_calls cs) in
  (lr_registry_empty self → wrap_optimizer self optimizer adam = inl EmptyRegistry) ∧
  (¬ lr_registry_empty self →
     ∃ wrapped, wrap_optimizer self optimizer adam = inr wrapped ∧
       ∀ later, wrapped later = chain optimizer (scale_stage adam later)) ∧
  (∀ later updates (state : EmptyState) (params : option P),
     keys2 updates = keys2 (scale_tree adam later) →
     ∃ scaled,
       update_fn (scale_stage adam later) updates state params = inr (scaled, state) ∧
       keys2 scaled = keys2 updates ∧
       ∀ parent name update, lookup2 parent name updates = Some update →
         ∃ scale, lookup2 parent name (scale_tree adam later) = Some scale ∧
                  lookup2 parent name scaled = Some (array_mul update scale)).
Proof.
  cbv zeta. destruct (session_inv_after_calls cs) as [Hmirror _].
  pose proof (registries_mirror_empty _ Hmirror) as Hempty.
  split; [|split].
  - intros Hnil. unfold wrap_optimizer. apply Hempty in Hnil. by rewrite Hnil.
  - intros Hne. unfold wrap_optimizer.
    destruct (Nat.eqb_spec (size (_adam_lrs (self_ (after_calls cs)))) 0) as [Hz|Hnz].
    + by apply Hempty in Hz.
    + eexists. split; [reflexivity|done].
  - intros later updates state params Hkeys. eexists. split; [|split].
    + by apply scale_stage_update.
    + by apply keys2_zip_with.
    + intros parent name update Hupdate.
      destruct (lookup2_keys2 updates (scale_tree adam later) parent name Hkeys)
        as [scale Hscale]; [by eexists|].
      exists scale. split; [done|]. by rewrite lookup2_zip_with, Hupdate, Hscale.
Qed.
End OptimizerClaims.

(** ** The two halves of the learning-rate registry *)

Section RegistryClaims.
Context `{Float64 F}.
Implicit Types (self : Mup F).

(** C10.  After any calls the sgd and the adam registry have the same
    keys, parent by parent and name by name, so that one is empty exactly
    when the other is and the check on the adam registry decides both; a
    recording that returns has written both under the same key. *)
Theorem lr_registries_share_keys (cs : list call) :
  let self := self_ (after_calls cs) in
  keys2 (_sgd_lrs self) = keys2 (_adam_lrs self) ∧
  (∀ parent name, is_Some (lookup2 parent name (_sgd_lrs self)) ↔
                  is_Some (lookup2 parent name (_adam_lrs self))) ∧
  (size (_adam_lrs self) = 0%nat ↔ lr_registry_empty self) ∧
  (∀ full_name sgd_lr adam_lr self',
     run (set_lrs full_name sgd_lr adam_lr) self = (self', inr ()) →
     ∃ parent name, records_lrs parent name sgd_lr adam_lr self').
Proof.
  cbv zeta. destruct (session_inv_after_calls cs) as [Hmirror _].
  split; [done|split; [|split]].
  - intros parent name. split; apply lookup2_keys2; done.
  - by apply registries_mirror_empty.
  - intros fn sgd_lr adam_lr self' Hrun.
    destruct (set_lrs_effect fn sgd_lr adam_lr (self_ (after_calls cs)))
      as [Hsame|(parent & name & _ & Hfound)].
    + unfold set_lrs in Hrun. rewrite run_lift_bind in Hrun.
      destruct (unpack2 (rsplit slash fn)) as [e|[parent name]]; [done|].
      exists parent, name. injection Hrun as <-. apply records_lrs_with_lrs.
    + rewrite Hfound in Hrun. injection Hrun as <-.
      exists parent, name. apply records_lrs_with_lrs.
Qed.
End RegistryClaims.

(** * Worked examples *)

Lemma example_finds_linear {F} :
  finds_base (F:=F) example_session (mkContext "linear/w" OtherModule) [1024; 512]
    "linear" "w" [128; 128].
Proof.
  split; [reflexivity|]. split; [by exists example_shapes|].
  split; [reflexivity|]. repeat constructor.
Defined.

Lemma example_finds_readout {F} :
  finds_base (F:=F) example_session (mkContext "readout/w" Readout) [1024; 10]
    "readout" "w" [128; 10].
Proof.
  split; [reflexivity|]. split; [by exists example_shapes|].
  split; [reflexivity|]. repeat constructor.
Defined.

(** C2 at (128, 128) against (1024, 128), in exact arithmetic. *)
Lemma get_inf_ratios_counts_and_orders_witness :
  _get_inf_ratios (F:=Q) example_session "linear/w" [1024; 128] = inr (1%nat, [PyFloat (8 # 1)]).
Proof.
  assert (Forall (λ a, 0 < a) [128; 128]) as Hpos by repeat constructor.
  exact (get_inf_ratios_counts_and_orders (F:=Q) example_session "linear/w" "linear" "w"
           example_shapes [128; 128] [1024; 128] 1
           eq_refl eq_refl eq_refl eq_refl Hpos eq_refl (le_S _ _ (le_n 1))).
Defined.

(** C7 at a convolution kernel that differs from its base in three
    dimensions. *)
Lemma too_many_infinite_dimensions_raises_witness :
  _get_inf_ratios (F:=Q) example_session "conv/w" [5; 5; 32; 16] =
    inl (TooManyInfiniteDimensions 3 "conv/w") ∧
  _mup_creator (F:=Q) example_next_creator [5; 5; 32; 16] "float32" example_init
      (mkContext "conv/w" OtherModule) (Some example_session) =
    (Some example_session, inl (TooManyInfiniteDimensions 3 "conv/w")).
Proof.
  apply (too_many_infinite_dimensions_raises (F:=Q) example_next_creator example_session
           (mkContext "conv/w" OtherModule) [5; 5; 32; 16] "float32" example_init
           "conv" "w" example_shapes [3; 3; 16; 16]);
    [reflexivity|reflexivity|reflexivity|reflexivity|simpl; lia].
Defined.

(** C1 at (128, 128) against (1024, 512): the ratios are 8 and 4, so the
    sgd rate is 1 / (8 / 4) and the adam rate 1 / 8. *)
Lemma creator_records_learning_rates_witness :
  records_lrs (F:=Q) "linear" "w" (PyFloat (1 # 2)) (PyFloat (1 # 8))
    (session_after_creator example_next_creator [1024; 512] "float32" example_init
       (mkContext "linear/w" OtherModule) example_session).
Proof.
  pose proof (creator_records_learning_rates (F:=Q) example_next_creator example_session
                (mkContext "linear/w" OtherModule) [1024; 512] "float32" example_init
                "linear" "w" [128; 128] example_finds_linear) as Hcases.
  cbv zeta in Hcases. destruct Hcases as (_ & _ & Htwo).
  apply (Htwo 0%nat 1%nat (PyFloat (2 # 1))); reflexivity.
Defined.

(** C6 at the readout layer (128, 10) against (1024, 10). *)
Lemma creator_rescales_readout_only_witness :
  let out := run (_mup_creator_on (F:=Q) example_next_creator [1024; 10] "float32"
                    example_init (mkContext "readout/w" Readout)) example_session in
  readout_mults out.1 = <["readout" := PyFloat (8 # 1)]> ∅ ∧
  out.2 = inr ([1024; 10], "float32", ConstantStdInit example_init (PyFloat (1 # 8))) ∧
  std_divided_by (PyFloat (8 # 1)) example_init
    (ConstantStdInit example_init (PyFloat (1 # 8))).
Proof.
  pose proof (creator_rescales_readout_only (F:=Q) example_next_creator example_session
                (mkContext "readout/w" Readout) [1024; 10] "float32" example_init
                "readout" "w" [128; 10] example_finds_readout) as Hcases.
  cbv zeta in Hcases. destruct Hcases as (Hreadout & _).
  apply (Hreadout 0%nat (PyFloat (1 # 8))); reflexivity.
Defined.

(** After [example_calls] a value of the readout layer is divided by 8. *)
Lemma getter_divides_readout_values_witness :
  _mup_getter (F:=Q) (A:=list Q) id [16 # 1; 4 # 1] (mkContext "readout/w" Readout)
    (self_ (after_calls example_calls)) = inr [2 # 1; 1 # 2].
Proof.
  pose proof (getter_divides_readout_values (F:=Q) (A:=list Q) example_calls id
                [16 # 1; 4 # 1] (mkContext "readout/w" Readout) "readout" "w" eq_refl)
    as Hcases.
  cbv zeta in Hcases. destruct Hcases as (_ & _ & Hdiv).
  apply (Hdiv (PyFloat (8 # 1))); reflexivity.
Defined.

(** C8 before and after [example_calls]. *)
Lemma init_context_rejects_reuse_witness :
  (init_context_enter (F:=Q) example_shapes (after_calls [])).2 = inr None ∧
  (init_context_enter (F:=Q) example_shapes (after_calls example_calls)).2 = inl SessionReuse.
Proof.
  split.
  - apply (init_context_rejects_reuse (F:=Q) [] example_shapes). by split.
  - apply (init_context_rejects_reuse (F:=Q) example_calls example_shapes).
    intros [Hsgd _]. discriminate Hsgd.
Defined.

(** C9 before and after [example_calls]: the registry holds 8 (sgd) and
    1 (adam) for the readout weight. *)
Lemma wrap_optimizer_scales_updates_witness :
  wrap_optimizer (F:=Q) (A:=list Q) (P:=unit) Mup_init example_optimizer false =
    inl EmptyRegistry ∧
  ∃ wrapped,
    wrap_optimizer (F:=Q) (A:=list Q) (P:=unit) (self_ (after_calls example_calls))
      example_optimizer false = inr wrapped ∧
    update_fn (wrapped (self_ (after_calls example_calls))) example_updates
        ((), mkEmptyState) None =
      inr (<["readout" := <["w" := [16 # 1; 2 # 1]]> ∅]> ∅, ((), mkEmptyState)).
Proof.
  split.
  - apply (wrap_optimizer_scales_updates (F:=Q) (A:=list Q) (P:=unit) []
             example_optimizer false). by split.
  - destruct (wrap_optimizer_scales_updates (F:=Q) (A:=list Q) (P:=unit) example_calls
                example_optimizer false) as (_ & Hwrap & _).
    destruct Hwrap as (wrapped & Hwrapped & Hchain).
    { intros [Hsgd _]. discriminate Hsgd. }
    exists wrapped. split; [exact Hwrapped|]. rewrite Hchain. reflexivity.
Defined.

(** C10 after [example_calls]. *)
Lemma lr_registries_share_keys_witness :
  keys2 (_sgd_lrs (self_ (after_calls (F:=Q) example_calls))) =
    <["readout" := {["w"]}]> ∅ ∧
  keys2 (_adam_lrs (self_ (after_calls (F:=Q) example_calls))) =
    <["readout" := {["w"]}]> ∅.
Proof.
  destruct (lr_registries_share_keys (F:=Q) example_calls) as (Hkeys & _).
  cbv zeta in Hkeys. split; [|rewrite <- Hkeys]; reflexivity.
Defined.

(** Leaving the context of a fresh session object whose body creates
    the readout weight. *)
Lemma init_context_cleans_up_witness :
  let left := (init_context (F:=Q) example_shapes example_body (after_calls [])).1 in
  _mup_context left = None ∧
  base_shapes (self_ left) = None ∧
  lookup2 "readout" "w" (_sgd_lrs (self_ left)) = Some (PyFloat (8 # 1)).
Proof.
  destruct (init_context_cleans_up (F:=Q) example_shapes example_body (after_calls [])
              eq_refl) as (_ & Hvar & Hshapes & Hsgd & _).
  cbv zeta. rewrite Hvar, Hshapes, Hsgd. repeat split.
Defined.

(** The multiplier of the readout layer after [example_calls] is 8. *)
Lemma recorded_multipliers_are_not_zero_witness :
  is_zero (F:=Q) (PyFloat (8 # 1)) = false.
Proof.
  exact (recorded_multipliers_are_not_zero (F:=Q) example_calls "readout" (PyFloat (8 # 1))
           eq_refl).
Defined.

(** C3 at the full name mlp/linear/w.  Cut at its last separator it is
    (mlp/linear, w); the code cuts it in three, so [set_lrs] and
    [_get_inf_ratios] raise at the unpacking, and the getter looks the
    multiplier up under mlp, the first piece. *)
Theorem nested_name_is_cut_at_every_separator :
  let full_name := "mlp/linear/w" in
  split_at_last slash full_name = Some ("mlp/linear", "w") ∧
  rsplit slash full_name = ["mlp"; "linear"; "w"] ∧
  run (set_lrs (F:=Q) full_name one_float one_float) Mup_init =
    (Mup_init, inl (UnpackError 3)) ∧
  _get_inf_ratios (F:=Q) (set_base_shapes (Some nested_shapes) Mup_init) full_name [1024] =
    inl (UnpackError 3) ∧
  _mup_getter (F:=Q) (A:=list Q) id [16 # 1] (mkContext full_name Readout)
      (with_readout_mult "mlp" (PyFloat (8 # 1)) Mup_init) = inr [2 # 1] ∧
  _mup_getter (F:=Q) (A:=list Q) id [16 # 1] (mkContext full_name Readout)
      (with_readout_mult "mlp/linear" (PyFloat (8 # 1)) Mup_init) = inr [16 # 1].
Proof. cbv zeta. repeat split. Qed.

(** C5 at the read of mlp/readout/w, a parameter of a Readout module
    nested in mlp, after [outer_readout_calls].  The scope of the
    parameter, mlp/readout, has no multiplier, yet the getter looks under
    mlp, the first piece of the name, finds 8 and divides the value. *)
Theorem nested_readout_read_uses_outer_multiplier :
  let self := self_ (after_calls (F:=Q) outer_readout_calls) in
  let context := mkContext "mlp/readout/w" Readout in
  split_at_last slash (full_name context) = Some ("mlp/readout", "w") ∧
  rsplit slash (full_name context) = ["mlp"; "readout"; "w"] ∧
  readout_mults self !! "mlp/readout" = None ∧
  readout_mults self !! "mlp" = Some (PyFloat (8 # 1)) ∧
  _mup_getter (A:=list Q) id [16 # 1] context self = inr [2 # 1].
Proof. cbv zeta. repeat split. Qed.

(** C4 at a session object that has been used: entering its context
    again raises [SessionReuse] and leaves the context variable set to
    the object and the base shapes stored, whatever the body; a later
    [apply_mup] then installs the creator. *)
Theorem reuse_error_skips_the_cleanup :
  let w := after_calls (F:=Q) example_calls in
  _mup_context w = None ∧
  base_shapes (self_ w) = None ∧
  ∀ (R : Type) (body : World Q → World Q * result R),
    let left := (init_context example_shapes body w).1 in
    (init_context example_shapes body w).2 = inl SessionReuse ∧
    _mup_context left = Some This ∧
    base_shapes (self_ left) = Some example_shapes ∧
    apply_mup left = Some This.
Proof.
  cbv zeta. split; [reflexivity|]. split; [reflexivity|]. intros R body.
  assert (size (_adam_lrs (self_ (after_calls (F:=Q) example_calls))) ≠ 0%nat) as Hsize
    by (vm_compute; discriminate).
  rewrite (init_context_reuse example_shapes body _ Hsize).
  split; [reflexivity|]. split; [reflexivity|]. split; reflexivity.
Qed.

(** * Exact arithmetic: the divisions of the creator are defined *)

Lemma positive_num_truthy (x : pynum Q) : positive_num x → truthy x = true.
Proof.
  unfold positive_num, truthy. destruct x as [z|q]; simpl; intros Hpos.
  - apply negb_true_iff, Z.eqb_neq. intros ->. by apply Qlt_irrefl in Hpos.
  - apply negb_true_iff. destruct (Qeq_bool q 0) eqn:Hq; [|done].
    apply Qeq_bool_eq in Hq. rewrite Hq in Hpos. by apply Qlt_irrefl in Hpos.
Qed.

Lemma positive_num_quotient (x y : Q) : (0 < x)%Q → (0 < y)%Q → (0 < Qred (x / y))%Q.
Proof.
  intros Hx Hy. rewrite Qred_correct. apply Qlt_shift_div_l; [done|].
  by rewrite Qmult_0_l.
Qed.

Lemma positive_num_truediv (x y : pynum Q) :
  positive_num x → positive_num y →
  ∃ d, truediv x y = inr d ∧ positive_num d.
Proof.
  intros Hx Hy. pose proof (positive_num_truthy y Hy) as Hty.
  unfold truediv. unfold truthy in Hty. apply negb_true_iff in Hty. rewrite Hty.
  destruct x as [a|p], y as [b|q]; eexists; (split; [reflexivity|]);
    by apply positive_num_quotient.
Qed.

Lemma positive_num_ratio_at base shape i :
  0 < dim base i → 0 < dim shape i → positive_num (ratio_at base shape i).
Proof.
  intros Hb Hs. unfold positive_num, ratio_at. simpl.
  apply positive_num_quotient; unfold Qlt; simpl; lia.
Qed.

Lemma positive_num_one_int : positive_num one_int.
Proof. done. Qed.

(** For two infinite dimensions of positive sizes the three divisions of
    the creator are defined, and the rates they give are above zero. *)
Lemma exact_two_dims_divisions_defined base shape i j :
  0 < dim base i → 0 < dim shape i → 0 < dim base j → 0 < dim shape j →
  ∃ fanin_fanout_ratio sgd_lr adam_lr,
    truediv (ratio_at (F:=Q) base shape i) (ratio_at base shape j) = inr fanin_fanout_ratio ∧
    truediv one_int fanin_fanout_ratio = inr sgd_lr ∧
    truediv one_int (ratio_at (F:=Q) base shape i) = inr adam_lr ∧
    positive_num sgd_lr ∧ positive_num adam_lr.
Proof.
  intros Hbi Hsi Hbj Hsj.
  pose proof (positive_num_ratio_at base shape i Hbi Hsi) as Hi.
  pose proof (positive_num_ratio_at base shape j Hbj Hsj) as Hj.
  destruct (positive_num_truediv _ _ Hi Hj) as (q & Hq & Hqpos).
  destruct (positive_num_truediv _ _ positive_num_one_int Hqpos) as (sgd_lr & Hsgd & Hspos).
  destruct (positive_num_truediv _ _ positive_num_one_int Hi) as (adam_lr & Hadam & Hapos).
  by exists q, sgd_lr, adam_lr.
Qed.

(** * Further properties of the code *)

(** ** What the analysis returns and raises, for every input *)

Lemma sum_bools_filter (l : list (Z * Z)) :
  sum_bools ((λ '(a, b), negb (a =? b)) <$> l) = length (filter (λ '(a, b), a ≠ b) l).
Proof.
  induction l as [|[a b] l IH]; [done|].
  rewrite fmap_cons, filter_cons. unfold sum_bools in *. rewrite fmap_cons.
  cbn [sum_list sum_list_with]. rewrite IH.
  destruct (Z.eqb_spec a b), (decide (a ≠ b)); done.
Qed.

Lemma comprehension_length {X Y} (f : X → result Y) (l : list X) (ys : list Y) :
  comprehension f l = inr ys → length ys = length l.
Proof.
  revert ys. induction l as [|x l IH]; intros ys Hys; simpl in Hys.
  - by injection Hys as <-.
  - destruct (f x) as [e|y]; [done|]. simpl in Hys.
    destruct (comprehension f l) as [e|ys']; [done|]. simpl in Hys.
    injection Hys as <-. simpl. by rewrite (IH ys').
Qed.

Lemma comprehension_raises {X Y} (f : X → result Y) (l : list X) (P : exn → Prop) e :
  (∀ x e, f x = inl e → P e) → comprehension f l = inl e → P e.
Proof.
  intros Hf. induction l as [|x l IH]; simpl; [done|].
  destruct (f x) as [e'|y] eqn:Hx; simpl.
  - intros [= <-]. by eapply Hf.
  - destruct (comprehension f l) as [e'|ys]; simpl; [|done].
    intros [= <-]. by apply IH.
Qed.

Section Analysis.
Context `{Float64 F}.
Implicit Types (self : Mup F) (shape base : Shape).

Lemma truediv_raises (x y : pynum F) e : truediv x y = inl e → e = ZeroDivisionError.
Proof.
  unfold truediv. destruct (is_zero y); [by intros [= <-]|].
  by destruct x, y.
Qed.

Lemma truediv_raises_zero (x y : pynum F) e : truediv x y = inl e → truthy y = false.
Proof.
  unfold truediv, truthy. destruct (is_zero y); [done|]. by destruct x, y.
Qed.

Lemma unpack2_raises {X} (xs : list X) e : unpack2 xs = inl e → e = UnpackError (length xs).
Proof.
  destruct xs as [|x [|y [|z l]]]; cbv [unpack2 raise mret result_ret];
    intros Hx; by simplify_eq.
Qed.

Lemma _get_inf_ratios_returns self fn shape n_inf inf_ratios :
  _get_inf_ratios self fn shape = inr (n_inf, inf_ratios) →
  length inf_ratios = n_inf ∧ (n_inf ≤ 2)%nat ∧
  ∃ parent name, rsplit slash fn = [parent; name].
Proof.
  unfold _get_inf_ratios.
  destruct (unpack2 (rsplit slash fn)) as [e|[parent name]] eqn:Hfn; [done|].
  apply unpack2_inr in Hfn. simpl.
  destruct (base_shapes self) as [shapes|]; [|done]. simpl.
  unfold subscript.
  destruct (shapes !! parent) as [of_parent|]; [|done]. simpl.
  destruct (of_parent !! name) as [base|]; [|done]. simpl.
  rewrite sum_bools_filter.
  destruct (Nat.ltb_spec 2 (length (filter (λ '(a, b), a ≠ b) (zip base shape))))
    as [|Hle]; [done|].
  destruct (comprehension _ _) as [e|ratios] eqn:Hratios; [done|]. simpl.
  intros [= <- <-]. apply comprehension_length in Hratios.
  split; [done|]. split; [done|]. by exists parent, name.
Qed.

Lemma _get_inf_ratios_raises self fn shape e :
  _get_inf_ratios self fn shape = inl e → creator_error e.
Proof.
  unfold _get_inf_ratios.
  destruct (unpack2 (rsplit slash fn)) as [e'|[parent name]] eqn:Hfn.
  { apply unpack2_raises in Hfn. subst e'. by intros [= <-]. }
  simpl. destruct (base_shapes self) as [shapes|]; [|by intros [= <-]]. simpl.
  unfold subscript.
  destruct (shapes !! parent) as [of_parent|]; [|by intros [= <-]]. simpl.
  destruct (of_parent !! name) as [base|]; [|by intros [= <-]]. simpl.
  destruct (_ <? _)%nat; [by intros [= <-]|].
  destruct (comprehension _ _) as [e'|ratios] eqn:Hratios; [|done]. simpl.
  intros [= <-]. revert Hratios. apply comprehension_raises.
  intros [a b] e2 He2. apply truediv_raises in He2. by subst e2.
Qed.
End Analysis.

(** ** The outcomes of the creator, for every input *)

Section Outcomes.
Context `{Float64 F} {Dtype Param : Type}.
Implicit Types (self : Mup F) (shape base : Shape) (context : Context).
Variable next_creator : Shape → Dtype → Initializer F → Param.

Ltac run_eval :=
  cbn [run get_self mret result_ret action_ret unpack2 index Nat.eqb length
       lookup list_lookup andb];
  cbv beta iota zeta.

Lemma creator_outcomes shape dtype init context self :
  creator_outcome next_creator shape dtype init context self
    (run (_mup_creator_on next_creator shape dtype init context) self).1
    (run (_mup_creator_on next_creator shape dtype init context) self).2.
Proof.
  unfold _mup_creator_on. rewrite run_bind. cbn [run get_self]. rewrite run_lift_bind.
  destruct (_get_inf_ratios self (full_name context) shape) as [e|[n_inf rs]] eqn:Hana.
  { apply outcome_raised. by eapply _get_inf_ratios_raises. }
  destruct (_get_inf_ratios_returns _ _ _ _ _ Hana) as (Hlen & Hle & parent & name & Hfn).
  rewrite run_lift_bind, Hfn. run_eval.
  destruct n_inf as [|[|[|n]]]; [| | |lia]; run_eval.
  - rewrite run_bind, run_ret. run_eval.
    rewrite run_bind, (set_lrs_found _ parent name) by done. run_eval.
    rewrite andb_false_r. simpl. by apply outcome_recorded.
  - destruct rs as [|width_mult [|? ?]]; try done.
    rewrite run_lift_bind. run_eval.
    rewrite run_bind, (set_lrs_found _ parent name) by done. run_eval.
    rewrite andb_true_r.
    destruct (module context) eqn:Hmod; simpl isinstance_Readout; run_eval;
      [|simpl; by apply outcome_recorded].
    rewrite run_bind, run_lift_bind.
    destruct (truediv one_int width_mult) as [e|div] eqn:Hdiv; simpl.
    + rewrite (truediv_raises _ _ _ Hdiv).
      apply outcome_recorded_raised; [done|done|]. by eapply truediv_raises_zero.
    + by apply outcome_readout.
  - destruct rs as [|width_mult [|second [|? ?]]]; try done.
    rewrite run_lift_bind. run_eval. rewrite run_bind, run_lift_bind. run_eval.
    rewrite run_lift_bind.
    destruct (truediv width_mult second) as [e|ratio] eqn:Hratio.
    { rewrite (truediv_raises _ _ _ Hratio). by apply outcome_raised. }
    rewrite run_lift_bind.
    destruct (truediv one_int ratio) as [e|sgd_lr] eqn:Hsgd.
    { rewrite (truediv_raises _ _ _ Hsgd). by apply outcome_raised. }
    rewrite run_lift_bind.
    destruct (truediv one_int width_mult) as [e|adam_lr] eqn:Hadam.
    { rewrite (truediv_raises _ _ _ Hadam). by apply outcome_raised. }
    rewrite (set_lrs_found _ parent name) by done. run_eval.
    rewrite andb_false_r. simpl. by apply outcome_recorded.
Qed.
End Outcomes.

(** ** Recording, names without a scope, missing base shapes *)

Lemma setitem2_non_empty {V} parent name (v : V) (d : Tree V) : setitem2 parent name v d ≠ ∅.
Proof. apply insert_non_empty. Qed.

Lemma setitem2_setitem2 {V} parent name (v v' : V) (d : Tree V) :
  setitem2 parent name v (setitem2 parent name v' d) = setitem2 parent name v d.
Proof.
  unfold setitem2. rewrite lookup_insert_eq. simpl.
  by rewrite !insert_insert_eq.
Qed.

Lemma is_Some_lookup2_setitem2 {V} parent name (v : V) (d : Tree V) parent' name' :
  is_Some (lookup2 parent' name' d) →
  is_Some (lookup2 parent' name' (setitem2 parent name v d)).
Proof.
  intros Hsome. destruct (decide ((parent, name) = (parent', name'))) as [[= <- <-]|Hne].
  - rewrite lookup2_setitem2_eq. by eexists.
  - by rewrite lookup2_setitem2_ne.
Qed.

Section Recording.
Context `{Float64 F} {Dtype Param : Type}.
Implicit Types (self : Mup F) (shape base : Shape) (context : Context).

(** What [_get_inf_ratios] does once the base shape is found, whatever
    the lengths of the two shapes. *)
Lemma _get_inf_ratios_zip self fn parent name shapes base shape :
  rsplit slash fn = [parent; name] →
  base_shapes self = Some shapes →
  lookup2 parent name shapes = Some base →
  _get_inf_ratios self fn shape =
    let differing := filter (λ '(a, b), a ≠ b) (zip base shape) in
    if (2 <? length differing)%nat
    then raise (TooManyInfiniteDimensions (length differing) fn)
    else inf_ratios ← comprehension (λ '(a, b), truediv (PyInt b) (PyInt a)) differing;
         mret (length differing, inf_ratios).
Proof.
  intros Hfn Hshapes Hbase. unfold _get_inf_ratios, lookup2 in *.
  rewrite Hfn, Hshapes. simpl. unfold subscript.
  destruct (shapes !! parent) as [of_parent|]; [|done]. simpl in *.
  rewrite Hbase. simpl. by rewrite sum_bools_filter.
Qed.

(** [set_lrs] on a name with one separator returns, holds the two rates
    under that name afterwards, whatever was there before, and changes no
    other entry, nor the base shapes, nor the readout multipliers. *)
Theorem set_lrs_writes_one_entry fn parent name (sgd_lr adam_lr : pynum F) self :
  rsplit slash fn = [parent; name] →
  let self' := (run (set_lrs fn sgd_lr adam_lr) self).1 in
  (run (set_lrs fn sgd_lr adam_lr) self).2 = inr () ∧
  records_lrs parent name sgd_lr adam_lr self' ∧
  (∀ parent' name', (parent', name') ≠ (parent, name) →
     lookup2 parent' name' (_sgd_lrs self') = lookup2 parent' name' (_sgd_lrs self) ∧
     lookup2 parent' name' (_adam_lrs self') = lookup2 parent' name' (_adam_lrs self)) ∧
  base_shapes self' = base_shapes self ∧
  readout_mults self' = readout_mults self.
Proof.
  intros Hfn. cbv zeta. rewrite (set_lrs_found _ _ _ _ _ _ Hfn). simpl.
  split; [done|]. split; [apply records_lrs_with_lrs|]. split; [|done].
  intros parent' name' Hne. split; by apply lookup2_setitem2_ne.
Qed.

(** A full name with no separator, the empty name among them, cannot be
    unpacked into parent and name: [set_lrs], [_get_inf_ratios] and the
    creator raise the unpacking error and leave the session object as it
    was. *)
Theorem name_without_scope_raises
    (next_creator : Shape → Dtype → Initializer F → Param)
    shape dtype init context (sgd_lr adam_lr : pynum F) self :
  count_sep slash (full_name context) = 0%nat →
  run (set_lrs (full_name context) sgd_lr adam_lr) self = (self, inl (UnpackError 1)) ∧
  _get_inf_ratios self (full_name context) shape = inl (UnpackError 1) ∧
  _mup_creator next_creator shape dtype init context (Some self) =
    (Some self, inl (UnpackError 1)).
Proof.
  intros Hsep.
  assert (unpack2 (rsplit slash (full_name context)) = raise (UnpackError 1)) as Hun.
  { rewrite unpack2_rsplit_fails by lia. by rewrite Hsep. }
  assert (_get_inf_ratios self (full_name context) shape = inl (UnpackError 1)) as Hana.
  { unfold _get_inf_ratios. by rewrite Hun. }
  split; [|split; [done|]].
  - unfold set_lrs. by rewrite run_lift_bind, Hun.
  - unfold _mup_creator, _mup_creator_on. rewrite run_bind. cbn [run get_self].
    by rewrite run_lift_bind, Hana.
Qed.

(** When the stored base shapes hold no shape for the parameter, or no
    base shapes are stored, [_get_inf_ratios] raises (a [KeyError] of the
    missing key, a [TypeError] when nothing is stored), and so does the
    creator, with the session object as it was. *)
Theorem missing_base_shape_raises
    (next_creator : Shape → Dtype → Initializer F → Param)
    shape dtype init context self parent name :
  rsplit slash (full_name context) = [parent; name] →
  (∀ shapes, base_shapes self = Some shapes → lookup2 parent name shapes = None) →
  let error := missing_base_shape_error (base_shapes self) parent name in
  _get_inf_ratios self (full_name context) shape = inl error ∧
  _mup_creator next_creator shape dtype init context (Some self) = (Some self, inl error).
Proof.
  intros Hfn Hmissing error.
  assert (_get_inf_ratios self (full_name context) shape = inl error) as Hana.
  { unfold _get_inf_ratios, error, missing_base_shape_error. rewrite Hfn. simpl.
    destruct (base_shapes self) as [shapes|]; [|done]. simpl.
    specialize (Hmissing shapes eq_refl). unfold lookup2, subscript in *.
    destruct (shapes !! parent) as [of_parent|]; [|done]. simpl in *.
    by rewrite Hmissing. }
  split; [done|].
  unfold _mup_creator, _mup_creator_on. rewrite run_bind. cbn [run get_self].
  by rewrite run_lift_bind, Hana.
Qed.
End Recording.

(** ** Shapes of different rank, base dimensions of size zero *)

Section EdgeShapes.
Context `{Float64 F} {Dtype Param : Type}.
Implicit Types (self : Mup F) (shape base : Shape) (context : Context).

Lemma comprehension_ratios_zero (pairs : list (Z * Z)) b :
  (0, b) ∈ pairs →
  comprehension (λ '(a, b), truediv (F:=F) (PyInt b) (PyInt a)) pairs =
    inl ZeroDivisionError.
Proof.
  induction pairs as [|[a' b'] pairs IH]; [by intros ?%elem_of_nil|].
  intros [[= <- <-]|Hin]%elem_of_cons; cbn [comprehension].
  - reflexivity.
  - rewrite (IH Hin). destruct (truediv (PyInt b') (PyInt a')) as [e|y] eqn:Hdiv; [|done].
    simpl. by rewrite (truediv_raises _ _ _ Hdiv).
Qed.

(** The dimensions of the requested shape beyond the rank of the base
    shape take no part in the analysis. *)
Theorem extra_dimensions_are_ignored self fn parent name shapes base shape :
  rsplit slash fn = [parent; name] →
  base_shapes self = Some shapes →
  lookup2 parent name shapes = Some base →
  _get_inf_ratios self fn shape = _get_inf_ratios self fn (take (length base) shape).
Proof.
  intros Hfn Hshapes Hbase.
  rewrite !(_get_inf_ratios_zip _ _ _ _ _ _ _ Hfn Hshapes Hbase).
  by rewrite (zip_with_take_r pair base shape).
Qed.

(** A base dimension of size zero against a requested dimension of
    another size makes the ratio a division by zero: when at most two
    dimensions differ, [_get_inf_ratios] raises [ZeroDivisionError], and
    the creator raises it with the session object as it was. *)
Theorem zero_base_dimension_raises
    (next_creator : Shape → Dtype → Initializer F → Param)
    shape dtype init context self parent name shapes base i b :
  rsplit slash (full_name context) = [parent; name] →
  base_shapes self = Some shapes →
  lookup2 parent name shapes = Some base →
  (length (filter (λ '(a, b), a ≠ b) (zip base shape)) ≤ 2)%nat →
  base !! i = Some 0 → shape !! i = Some b → b ≠ 0 →
  _get_inf_ratios self (full_name context) shape = inl ZeroDivisionError ∧
  _mup_creator next_creator shape dtype init context (Some self) =
    (Some self, inl ZeroDivisionError).
Proof.
  intros Hfn Hshapes Hbase Hle Hi Hb Hne.
  assert (_get_inf_ratios self (full_name context) shape = inl ZeroDivisionError) as Hana.
  { rewrite (_get_inf_ratios_zip _ _ _ _ _ _ _ Hfn Hshapes Hbase). cbv zeta.
    destruct (Nat.ltb_spec 2 (length (filter (λ '(a, b), a ≠ b) (zip base shape))));
      [lia|].
    rewrite (comprehension_ratios_zero _ b); [done|].
    apply list_elem_of_filter. split; [by intros Hz; apply Hne|].
    apply list_elem_of_lookup. exists i. rewrite (lookup_zip_with pair), Hi. simpl.
    by rewrite Hb. }
  split; [done|].
  unfold _mup_creator, _mup_creator_on. rewrite run_bind. cbn [run get_self].
  by rewrite run_lift_bind, Hana.
Qed.
End EdgeShapes.

(** ** What a call of the creator leaves alone *)

Section Frame.
Context `{Float64 F} {Dtype Param : Type}.
Implicit Types (self : Mup F) (shape base : Shape) (context : Context).

Lemma same_but_for_refl fn self : same_but_for fn self self.
Proof. done. Qed.

Lemma same_but_for_with_lrs fn parent name (sgd_lr adam_lr : pynum F) self :
  rsplit slash fn = [parent; name] →
  same_but_for fn self (with_lrs parent name sgd_lr adam_lr self).
Proof.
  intros Hfn. split; [done|]. split; [|done].
  intros parent' name' Hne. simpl.
  split; apply lookup2_setitem2_ne; intros [= -> ->]; done.
Qed.

Lemma same_but_for_with_readout_mult fn parent name (width_mult : pynum F) self self' :
  rsplit slash fn = [parent; name] →
  same_but_for fn self self' →
  same_but_for fn self (with_readout_mult parent width_mult self').
Proof.
  intros Hfn (Hshapes & Hlrs & Hmults). split; [done|]. split; [done|].
  intros parent' Hne. simpl. rewrite lookup_insert_ne; [by apply Hmults|].
  intros <-. by apply (Hne name).
Qed.

(** Whatever it is called with, and whether it returns or raises, the
    creator leaves the base shapes as they are and changes no entry of
    the three registries but those of the parameter it is called for. *)
Theorem creator_changes_one_parameter
    (next_creator : Shape → Dtype → Initializer F → Param)
    shape dtype init context self :
  same_but_for (full_name context) self
    (session_after_creator next_creator shape dtype init context self).
Proof.
  unfold session_after_creator.
  destruct (creator_outcomes next_creator shape dtype init context self)
    as [e He|parent name sgd_lr adam_lr Hfn|parent name w Hfn Hmod Hw|parent name w d Hfn Hmod Hd].
  - apply same_but_for_refl.
  - by apply same_but_for_with_lrs.
  - by apply same_but_for_with_lrs.
  - eapply same_but_for_with_readout_mult; [done|]. by apply same_but_for_with_lrs.
Qed.

(** Whenever [_get_inf_ratios] returns, for shapes of any ranks, it
    returns as many ratios as it counted infinite dimensions, and at most
    two: [inf_ratios[0]], read when the count is not zero, and
    [inf_ratios[1]], read when it is two, are in range, and with a
    [next_creator] that returns the creator raises no [IndexError]. *)
Theorem ratios_are_indexed_in_range
    (next_creator : Shape → Dtype → Initializer F → Param)
    shape dtype init context self :
  (∀ n_inf inf_ratios,
     _get_inf_ratios self (full_name context) shape = inr (n_inf, inf_ratios) →
     length inf_ratios = n_inf ∧ (n_inf ≤ 2)%nat ∧
     (n_inf ≠ 0%nat → ∃ ratio, index inf_ratios 0 = inr ratio) ∧
     (n_inf = 2%nat → ∃ ratio, index inf_ratios 1 = inr ratio)) ∧
  (run (_mup_creator_on next_creator shape dtype init context) self).2 ≠ inl IndexError.
Proof.
  split.
  - intros n_inf inf_ratios Hana.
    destruct (_get_inf_ratios_returns _ _ _ _ _ Hana) as (Hlen & Hle & _).
    split; [done|]. split; [done|]. split.
    + intros Hn. destruct inf_ratios as [|ratio rest]; [simpl in Hlen; lia|].
      by exists ratio.
    + intros ->. destruct inf_ratios as [|first [|ratio rest]]; try done.
      by exists ratio.
  - intros Hraise.
    destruct (creator_outcomes next_creator shape dtype init context self)
      as [e He|parent name sgd_lr adam_lr Hfn|parent name w Hfn Hmod Hw
         |parent name w d Hfn Hmod Hd]; by simplify_eq.
Qed.
End Frame.

(** ** Nothing recorded is ever removed *)

Section Growth.
Context `{Float64 F}.
Implicit Types (self : Mup F) (w : World F).

Lemma keeps_keys_refl self : keeps_keys self self.
Proof. done. Qed.

Lemma keeps_keys_trans self1 self2 self3 :
  keeps_keys self1 self2 → keeps_keys self2 self3 → keeps_keys self1 self3.
Proof. intros (?&?&?) (?&?&?). repeat split; eauto. Qed.

Lemma keeps_keys_with_lrs parent name (sgd_lr adam_lr : pynum F) self :
  keeps_keys self (with_lrs parent name sgd_lr adam_lr self).
Proof.
  split; [|split; [|done]]; intros parent' name'; simpl;
    apply is_Some_lookup2_setitem2.
Qed.

Lemma keeps_keys_with_readout_mult parent (width_mult : pynum F) self :
  keeps_keys self (with_readout_mult parent width_mult self).
Proof.
  split; [done|]. split; [done|]. intros parent' Hsome. simpl.
  destruct (decide (parent = parent')) as [<-|Hne].
  - rewrite lookup_insert_eq. by eexists.
  - by rewrite lookup_insert_ne.
Qed.

Lemma keeps_keys_creator {Dtype Param : Type}
    (next_creator : Shape → Dtype → Initializer F → Param) shape dtype init context self :
  keeps_keys self (run (_mup_creator_on next_creator shape dtype init context) self).1.
Proof.
  destruct (creator_outcomes next_creator shape dtype init context self)
    as [e He|parent name sgd_lr adam_lr Hfn|parent name w Hfn Hmod Hw|parent name w d Hfn Hmod Hd].
  - apply keeps_keys_refl.
  - apply keeps_keys_with_lrs.
  - apply keeps_keys_with_lrs.
  - eapply keeps_keys_trans; [apply keeps_keys_with_lrs|apply keeps_keys_with_readout_mult].
Qed.

Lemma keeps_keys_perform (c : call) w : keeps_keys (self_ w) (self_ (perform c w)).
Proof.
  destruct c as [shapes|token|shape init context|fn sgd_lr adam_lr]; cbn [perform self_].
  - unfold init_context_enter. simpl.
    by destruct (negb (size (_adam_lrs (self_ w)) =? 0)%nat).
  - done.
  - apply keeps_keys_creator.
  - destruct (set_lrs_effect fn sgd_lr adam_lr (self_ w)) as [->|(p & n & _ & ->)];
      [apply keeps_keys_refl|apply keeps_keys_with_lrs].
Qed.

(** No sequence of calls (entering and leaving the context, the creator,
    [set_lrs], returning or raising) removes a key from the learning-rate
    registries or from the readout registry. *)
Theorem registries_only_grow (cs cs' : list call) :
  keeps_keys (self_ (after_calls cs)) (self_ (after_calls (cs ++ cs'))).
Proof.
  induction cs' as [|c cs' IH] using rev_ind.
  - rewrite app_nil_r. apply keeps_keys_refl.
  - rewrite app_assoc, after_calls_snoc.
    eapply keeps_keys_trans; [exact IH|apply keeps_keys_perform].
Qed.
End Growth.

(** ** From the creator to the optimizer wrapper *)

Section AfterCreation.
Context `{Float64 F} `{Array F A} {Dtype Param S P : Type}.
Implicit Types (self : Mup F) (shape base : Shape) (context : Context).

(** A call of the creator that returns has recorded a learning rate:
    from then on [wrap_optimizer] returns an optimizer and entering the
    context again raises [SessionReuse]. *)
Theorem returned_creator_enables_wrapping
    (next_creator : Shape → Dtype → Initializer F → Param)
    shape dtype init context self param
    (optimizer : GradientTransformation (Tree A) S P) (adam : bool) shapes marker :
  (run (_mup_creator_on next_creator shape dtype init context) self).2 = inr param →
  let self' := session_after_creator next_creator shape dtype init context self in
  ¬ lr_registry_empty self' ∧
  wrap_optimizer self' optimizer adam =
    inr (λ later, chain optimizer (scale_stage adam later)) ∧
  (init_context_enter shapes (mkWorld self' marker)).2 = inl SessionReuse.
Proof.
  intros Hret. cbv zeta. unfold session_after_creator.
  assert (_adam_lrs (run (_mup_creator_on next_creator shape dtype init context) self).1 ≠ ∅)
    as Hne.
  { destruct (creator_outcomes next_creator shape dtype init context self)
      as [e He|parent name sgd_lr adam_lr Hfn|parent name w Hfn Hmod Hw
         |parent name w d Hfn Hmod Hd]; try done; simpl; apply setitem2_non_empty. }
  apply map_size_non_empty_iff in Hne.
  split; [|split].
  - intros [_ Hadam]. apply Hne. by rewrite Hadam.
  - unfold wrap_optimizer.
    by destruct (Nat.eqb_spec (size (_adam_lrs
         (run (_mup_creator_on next_creator shape dtype init context) self).1)) 0).
  - by rewrite init_context_enter_reuse.
Qed.
End AfterCreation.

(** ** Creating the same parameter again *)

Section Again.
Context `{Float64 F} {Dtype Param : Type}.
Implicit Types (self : Mup F) (shape base : Shape) (context : Context).
Variable next_creator : Shape → Dtype → Initializer F → Param.

Lemma finds_base_same_shapes self self' context shape parent name base :
  base_shapes self' = base_shapes self →
  finds_base self context shape parent name base →
  finds_base self' context shape parent name base.
Proof. intros Hsame (Hfn & Hshapes & Hrest). split; [done|]. by rewrite Hsame. Qed.

Lemma with_lrs_twice parent name (sgd_lr adam_lr : pynum F) self :
  with_lrs parent name sgd_lr adam_lr (with_lrs parent name sgd_lr adam_lr self) =
    with_lrs parent name sgd_lr adam_lr self.
Proof. unfold with_lrs. simpl. by rewrite !setitem2_setitem2. Qed.

Lemma with_readout_mult_twice parent name (width_mult one : pynum F) self :
  with_readout_mult parent width_mult
      (with_lrs parent name width_mult one
         (with_readout_mult parent width_mult (with_lrs parent name width_mult one self))) =
    with_readout_mult parent width_mult (with_lrs parent name width_mult one self).
Proof.
  unfold with_readout_mult, with_lrs. simpl.
  by rewrite !setitem2_setitem2, insert_insert_eq.
Qed.

Lemma creator_too_many self context shape dtype init parent name base :
  finds_base self context shape parent name base →
  (3 ≤ length (differing_positions base shape))%nat →
  run (_mup_creator_on next_creator shape dtype init context) self =
    (self, inl (TooManyInfiniteDimensions (length (differing_positions base shape))
                  (full_name context))).
Proof.
  intros (Hfn & (shapes & Hshapes & Hbase) & Hlen & _) Hk.
  unfold _mup_creator_on. rewrite run_bind. cbn [run get_self].
  rewrite run_lift_bind, (_get_inf_ratios_found _ _ _ _ _ _ _ Hfn Hshapes Hbase Hlen).
  cbv zeta. by destruct (Nat.ltb_spec 2 (length (differing_positions base shape))); [|lia].
Qed.

(** Creating a parameter a second time, with the same arguments, raises
    or returns what the first call did and leaves the session object as
    the first call left it. *)
Theorem creator_twice_is_once self context shape dtype init parent name base :
  finds_base self context shape parent name base →
  let once := run (_mup_creator_on next_creator shape dtype init context) self in
  run (_mup_creator_on next_creator shape dtype init context) once.1 = once.
Proof.
  intros Hfind. cbv zeta.
  destruct (differing_positions base shape) as [|i [|j [|k rest]]] eqn:Hdiff.
  - rewrite (creator_no_infinite_dim _ _ _ _ _ _ _ _ _ Hfind Hdiff). cbn [fst].
    rewrite (creator_no_infinite_dim _ _ _ _ _ _ parent name base); [|by
      eapply finds_base_same_shapes; [|exact Hfind]|done].
    by rewrite with_lrs_twice.
  - rewrite (creator_one_infinite_dim _ _ _ _ _ _ _ _ _ _ Hfind Hdiff). cbv zeta.
    destruct (isinstance_Readout (module context)) eqn:Hmod;
      [destruct (truediv one_int (ratio_at base shape i)) as [e|div] eqn:Hdiv|];
      cbn [fst];
      (rewrite (creator_one_infinite_dim _ _ _ _ _ _ parent name base i); [|by
        eapply finds_base_same_shapes; [|exact Hfind]|done]);
      cbv zeta; rewrite Hmod, ?Hdiv.
    + by rewrite with_lrs_twice.
    + by rewrite with_readout_mult_twice.
    + by rewrite with_lrs_twice.
  - rewrite (creator_two_infinite_dims _ _ _ _ _ _ _ _ _ _ _ Hfind Hdiff). cbv zeta.
    destruct (truediv (ratio_at base shape i) (ratio_at base shape j)) as [e|q] eqn:Hq;
      [|destruct (truediv one_int q) as [e|sgd_lr] eqn:Hsgd;
        [|destruct (truediv one_int (ratio_at base shape i)) as [e|adam_lr] eqn:Hadam]];
      cbn [fst];
      (rewrite (creator_two_infinite_dims _ _ _ _ _ _ parent name base i j); [|by
        eapply finds_base_same_shapes; [|exact Hfind]|done]);
      cbv zeta; rewrite Hq, ?Hsgd, ?Hadam; try done.
    by rewrite with_lrs_twice.
  - assert (3 ≤ length (differing_positions base shape))%nat as Hk
      by (rewrite Hdiff; simpl; lia).
    rewrite (creator_too_many _ _ _ _ _ _ _ _ Hfind Hk). cbn [fst].
    by rewrite (creator_too_many _ _ _ _ _ _ _ _ Hfind Hk).
Qed.
End Again.

(** ** Base shapes taken from the model itself *)

Lemma filter_zip_same (shape : Shape) : filter (λ '(a, b), a ≠ b) (zip shape shape) = [].
Proof.
  induction shape as [|a shape IH]; [done|].
  simpl. rewrite filter_cons, IH. by destruct (decide (a ≠ a)).
Qed.

Lemma lookup2_tree_map1 {X Y} (f : X → Y) (t : Tree X) parent name :
  lookup2 parent name (tree_map1 f t) = f <$> lookup2 parent name t.
Proof.
  unfold lookup2, tree_map1. rewrite lookup_fmap.
  destruct (t !! parent) as [inner|]; simpl; [|done]. apply lookup_fmap.
Qed.

Section OwnShapes.
Context `{Float64 F} `{Shaped A} {Dtype Param : Type}.
Implicit Types (self : Mup F) (context : Context) (params : Tree A).
Variable next_creator : Shape → Dtype → Initializer F → Param.

Ltac run_eval :=
  cbn [run get_self mret result_ret action_ret unpack2 index Nat.eqb length
       lookup list_lookup andb];
  cbv beta iota zeta.

(** The creator once the analysis has found no infinite dimension. *)
Lemma creator_after_no_infinite_dim self context shape dtype init parent name :
  rsplit slash (full_name context) = [parent; name] →
  _get_inf_ratios self (full_name context) shape = inr (0%nat, []) →
  run (_mup_creator_on next_creator shape dtype init context) self =
    (with_lrs parent name one_float one_float self, inr (next_creator shape dtype init)).
Proof.
  intros Hfn Hana. unfold _mup_creator_on. rewrite run_bind. cbn [run get_self].
  rewrite run_lift_bind, Hana. run_eval. rewrite run_lift_bind, Hfn. run_eval.
  rewrite run_bind, run_ret. run_eval.
  rewrite run_bind, (set_lrs_found _ parent name) by done. run_eval.
  by rewrite andb_false_r.
Qed.

(** With the shapes of a parameter tree as base shapes, creating one of
    its parameters at its own shape is the standard parametrization: the
    rates 1.0 and 1.0 are recorded, the initializer is passed on as it
    came and no readout multiplier is recorded, for a Readout too. *)
Theorem own_shapes_are_standard params arr dtype init context self parent name :
  rsplit slash (full_name context) = [parent; name] →
  base_shapes self = Some (get_shapes params) →
  lookup2 parent name params = Some arr →
  run (_mup_creator_on next_creator (array_shape arr) dtype init context) self =
    (with_lrs parent name one_float one_float self,
     inr (next_creator (array_shape arr) dtype init)).
Proof.
  intros Hfn Hshapes Harr. apply creator_after_no_infinite_dim; [done|].
  assert (lookup2 parent name (get_shapes params) = Some (array_shape arr)) as Hbase.
  { unfold get_shapes. by rewrite lookup2_tree_map1, Harr. }
  rewrite (_get_inf_ratios_zip _ _ _ _ _ _ _ Hfn Hshapes Hbase). cbv zeta.
  by rewrite filter_zip_same.
Qed.
End OwnShapes.

(** ** The getter, for every context *)

Section GetterTotal.
Context `{Float64 F} `{Array F A}.
Implicit Types (self : Mup F) (context : Context).

Lemma rsplit_first sep s : ∃ piece pieces, rsplit sep s = piece :: pieces.
Proof.
  pose proof (rsplit_length sep s) as Hlen.
  destruct (rsplit sep s) as [|piece pieces]; [done|]. by eexists _, _.
Qed.

(** The getter never raises, whatever the name and the module: it
    returns the value as read, or that value divided by a multiplier the
    readout registry holds; with an empty readout registry it returns
    every value as read. *)
Theorem getter_always_returns (next_getter : A → A) value context self :
  let val := next_getter value in
  (∃ v, _mup_getter next_getter value context self = inr v ∧
        (v = val ∨ ∃ parent m, readout_mults self !! parent = Some m ∧
                               module context = Readout ∧ v = array_div val m)) ∧
  (readout_mults self = ∅ → _mup_getter next_getter value context self = inr val).
Proof.
  cbv zeta. unfold _mup_getter.
  destruct (module context) eqn:Hmod; simpl; [|split; [by eexists; eauto|done]].
  destruct (rsplit_first slash (full_name context)) as (piece & pieces & ->). simpl.
  split.
  - destruct (readout_mults self !! piece) as [m|] eqn:Hm; [|by eexists; eauto].
    destruct (truthy m); simpl; [|by eexists; eauto].
    eexists. split; [done|]. right. by exists piece, m.
  - intros ->. by rewrite lookup_empty.
Qed.
End GetterTotal.

(** ** The wrapped optimizer as a whole *)

Section Wrapped.
Context `{Float64 F} `{Array F A} {S P : Type}.
Implicit Types (self later : Mup F) (updates : Tree A).

(** The optimizer [wrap_optimizer] returns starts from the state of the
    given optimizer paired with the empty state; an update runs the given
    optimizer first: its error is the error of the whole, and its updates
    are scaled entry by entry while its new state is passed on; updates
    whose keys are not those of the registry raise the tree error. *)
Theorem wrapped_optimizer_runs_then_scales self
    (optimizer : GradientTransformation (Tree A) S P) (adam : bool) wrapped :
  wrap_optimizer self optimizer adam = inr wrapped →
  ∀ later updates (state : S) (empty : EmptyState) (params : option P),
    (∀ p, init_fn (wrapped later) p = (init_fn optimizer p, mkEmptyState)) ∧
    (∀ e, update_fn optimizer updates state params = inl e →
       update_fn (wrapped later) updates (state, empty) params = inl e) ∧
    (∀ updates' state',
       update_fn optimizer updates state params = inr (updates', state') →
       update_fn (wrapped later) updates (state, empty) params =
         if decide (keys2 updates' = keys2 (scale_tree adam later)) then
           inr (map_zip_with (M:=gmap string) (map_zip_with (M:=gmap string) array_mul)
                  updates' (scale_tree adam later), (state', empty))
         else inl TreeStructureError).
Proof.
  unfold wrap_optimizer. destruct (size (_adam_lrs self) =? 0)%nat; [done|].
  intros [= <-] later updates state empty params. split; [done|]. split.
  - intros e He. unfold chain. simpl. by rewrite He.
  - intros updates' state' Hret. unfold chain. simpl. rewrite Hret. simpl.
    unfold tree_map2, scale_tree.
    destruct adam; by case_decide.
Qed.
End Wrapped.

(** ** [apply_mup] and the session context *)

Section ApplyMup.
Context `{Float64 F}.
Implicit Types (self : Mup F) (w : World F).

Lemma apply_mup_context w : apply_mup w = _mup_context w.
Proof. unfold apply_mup. by destruct (_mup_context w). Qed.

(** When entering [init_context] succeeds: [apply_mup] called in the
    body installs the creator bound to this session object, and the body
    sees it; [apply_mup] called after the context is left, by return or
    by a raise of the body, installs what it installed before the entry,
    so none when no session was active then. *)
Theorem apply_mup_inside_and_after_context {R} shapes
    (body : World F → World F * result R) w :
  size (_adam_lrs (self_ w)) = 0%nat →
  (init_context shapes (λ w, (w, inr (apply_mup w))) w).2 = inr (Some This) ∧
  apply_mup (init_context shapes body w).1 = apply_mup w ∧
  (_mup_context w = None → apply_mup (init_context shapes body w).1 = None).
Proof.
  intros Hsize. rewrite !apply_mup_context.
  unfold init_context. rewrite init_context_enter_fresh by done.
  split; [done|]. destruct (body _) as [w' r]. simpl. by split.
Qed.
End ApplyMup.

(** ** Where the entries of the registries come from *)

Section Provenance.
Context `{Float64 F}.
Implicit Types (self : Mup F) (w : World F).

Lemma lookup2_setitem2_is_Some {V} parent name (v : V) (d : Tree V) parent' name' :
  is_Some (lookup2 parent' name' (setitem2 parent name v d)) →
  (parent', name') = (parent, name) ∨ is_Some (lookup2 parent' name' d).
Proof.
  intros Hsome. destruct (decide ((parent, name) = (parent', name'))) as [<-|Hne];
    [by left|].
  right. by rewrite lookup2_setitem2_ne in Hsome.
Qed.

Lemma perform_lr_entry (c : call) w parent name :
  is_Some (lookup2 parent name (_sgd_lrs (self_ (perform c w)))) ∨
  is_Some (lookup2 parent name (_adam_lrs (self_ (perform c w)))) →
  call_for c parent name ∨
  is_Some (lookup2 parent name (_sgd_lrs (self_ w))) ∨
  is_Some (lookup2 parent name (_adam_lrs (self_ w))).
Proof.
  destruct c as [shapes|token|shape init context|fn sgd_lr adam_lr];
    cbn [perform self_ call_for].
  - unfold init_context_enter. simpl.
    destruct (negb (size (_adam_lrs (self_ w)) =? 0)%nat); simpl; auto.
  - simpl. auto.
  - destruct (creator_outcomes (λ _ _ _, ()) shape () init context (self_ w))
      as [e He|p n sgd_lr adam_lr Hfn|p n m Hfn Hmod Hm|p n m d Hfn Hmod Hd]; simpl; auto;
      (intros [[[= -> ->]|Hold]%lookup2_setitem2_is_Some
              |[[= -> ->]|Hold]%lookup2_setitem2_is_Some]; auto).
  - destruct (set_lrs_effect fn sgd_lr adam_lr (self_ w)) as [->|(p & n & Hfn & ->)];
      [auto|]. simpl.
    intros [[[= -> ->]|Hold]%lookup2_setitem2_is_Some
           |[[= -> ->]|Hold]%lookup2_setitem2_is_Some]; auto.
Qed.

Lemma perform_readout_entry (c : call) w parent :
  is_Some (readout_mults (self_ (perform c w)) !! parent) →
  readout_call_for c parent ∨ is_Some (readout_mults (self_ w) !! parent).
Proof.
  destruct c as [shapes|token|shape init context|fn sgd_lr adam_lr];
    cbn [perform self_ readout_call_for].
  - unfold init_context_enter. simpl.
    destruct (negb (size (_adam_lrs (self_ w)) =? 0)%nat); simpl; auto.
  - simpl. auto.
  - destruct (creator_outcomes (λ _ _ _, ()) shape () init context (self_ w))
      as [e He|p n sgd_lr adam_lr Hfn|p n m Hfn Hmod Hm|p n m d Hfn Hmod Hd]; simpl; auto.
    destruct (decide (p = parent)) as [->|Hne].
    + intros _. left. split; [done|]. by exists n.
    + rewrite lookup_insert_ne by done. auto.
  - destruct (set_lrs_effect fn sgd_lr adam_lr (self_ w)) as [->|(p & n & Hfn & ->)];
      simpl; auto.
Qed.

(** An entry of the learning-rate registry was recorded by a call of the
    creator or of [set_lrs] for that very parameter, and an entry of the
    readout registry by a call of the creator for a parameter of that
    Readout module: no call records anything under another name. *)
Theorem entries_come_from_their_calls (cs : list call) parent name :
  (is_Some (lookup2 parent name (_sgd_lrs (self_ (after_calls cs)))) ∨
   is_Some (lookup2 parent name (_adam_lrs (self_ (after_calls cs)))) →
   ∃ c, c ∈ cs ∧ call_for c parent name) ∧
  (is_Some (readout_mults (self_ (after_calls cs)) !! parent) →
   ∃ c, c ∈ cs ∧ readout_call_for c parent).
Proof.
  induction cs as [|c cs [IHlr IHmult]] using rev_ind.
  - split.
    + intros [[v Hv]|[v Hv]]; unfold lookup2 in Hv; simpl in Hv;
        by rewrite lookup_empty in Hv.
    + intros [v Hv]. simpl in Hv. by rewrite lookup_empty in Hv.
  - rewrite after_calls_snoc. split.
    + intros [Hc|Hold]%perform_lr_entry.
      * exists c. split; [|done]. apply elem_of_app. right. by apply list_elem_of_singleton.
      * destruct (IHlr Hold) as (c' & Hin & Hfor). exists c'. split; [|done].
        apply elem_of_app. by left.
    + intros [Hc|Hold]%perform_readout_entry.
      * exists c. split; [|done]. apply elem_of_app. right. by apply list_elem_of_singleton.
      * destruct (IHmult Hold) as (c' & Hin & Hfor). exists c'. split; [|done].
        apply elem_of_app. by left.
Qed.
End Provenance.

(** ** A readout weight, created and read *)

Section CreatedAndRead.
Context `{Float64 F} `{Array F A} {Dtype Param : Type}.
Implicit Types (self : Mup F) (shape base : Shape) (context : Context).

(** A parameter of a Readout module created with exactly one infinite
    dimension, of a ratio that is not zero, is read back divided by that
    ratio by a getter on the session object the creator left. *)
Theorem created_readout_is_read_divided
    (next_creator : Shape → Dtype → Initializer F → Param) (next_getter : A → A)
    self context shape dtype init parent name base i value :
  finds_base self context shape parent name base →
  module context = Readout →
  differing_positions base shape = [i] →
  truthy (ratio_at base shape i) = true →
  _mup_getter next_getter value context
      (session_after_creator next_creator shape dtype init context self) =
    inr (array_div (next_getter value) (ratio_at base shape i)).
Proof.
  intros Hfind Hmod Hdiff Hw. pose proof Hfind as (Hfn & _).
  unfold session_after_creator.
  rewrite (creator_one_infinite_dim _ _ _ _ _ _ _ _ _ _ Hfind Hdiff). cbv zeta.
  rewrite Hmod. simpl isinstance_Readout. cbv iota.
  unfold truediv at 1. unfold truthy in Hw. apply negb_true_iff in Hw. rewrite Hw.
  rewrite (getter_readout _ _ _ _ parent name Hfn Hmod).
  assert (truthy (ratio_at base shape i) = true) as Hw' by (unfold truthy; by rewrite Hw).
  destruct (ratio_at base shape i) as [z|x] eqn:Hratio; [done|].
  simpl. rewrite lookup_insert_eq. by rewrite Hw'.
Qed.
End CreatedAndRead.

(** * The further properties at the worked examples *)

(** Recording 2 and 3 for linear/w on the example session object. *)
Lemma set_lrs_writes_one_entry_witness :
  records_lrs (F:=Q) "linear" "w" (PyFloat (2 # 1)) (PyFloat (3 # 1))
    (run (set_lrs "linear/w" (PyFloat (2 # 1)) (PyFloat (3 # 1))) example_session).1.
Proof.
  destruct (set_lrs_writes_one_entry (F:=Q) "linear/w" "linear" "w" (PyFloat (2 # 1))
              (PyFloat (3 # 1)) example_session eq_refl) as (_ & Hrecords & _).
  exact Hrecords.
Defined.

(** The name w, with no scope. *)
Lemma name_without_scope_raises_witness :
  run (set_lrs (F:=Q) "w" one_float one_float) Mup_init = (Mup_init, inl (UnpackError 1)).
Proof.
  destruct (name_without_scope_raises (F:=Q) example_next_creator [128] "float32"
              example_init (mkContext "w" OtherModule) one_float one_float Mup_init eq_refl)
    as (Hset & _).
  exact Hset.
Defined.

(** The example base shapes hold no parameter v of the linear layer. *)
Lemma missing_base_shape_raises_witness :
  _get_inf_ratios (F:=Q) example_session "linear/v" [128] = inl (KeyError "v").
Proof.
  destruct (missing_base_shape_raises (F:=Q) example_next_creator [128] "float32"
              example_init (mkContext "linear/v" OtherModule) example_session
              "linear" "v" eq_refl) as (Hana & _).
  - intros shapes [= <-]. reflexivity.
  - exact Hana.
Defined.

(** The bias of base shape (128,) requested at (1024, 7, 7). *)
Lemma extra_dimensions_are_ignored_witness :
  _get_inf_ratios (F:=Q) example_session "linear/b" [1024; 7; 7] =
    _get_inf_ratios (F:=Q) example_session "linear/b" [1024].
Proof.
  exact (extra_dimensions_are_ignored (F:=Q) example_session "linear/b" "linear" "b"
           example_shapes [128] [1024; 7; 7] eq_refl eq_refl eq_refl).
Defined.

(** The base shape (0, 128) against (64, 128). *)
Lemma zero_base_dimension_raises_witness :
  _get_inf_ratios (F:=Q) (set_base_shapes (Some degenerate_shapes) Mup_init)
    "linear/w" [64; 128] = inl ZeroDivisionError.
Proof.
  destruct (zero_base_dimension_raises (F:=Q) example_next_creator [64; 128] "float32"
              example_init (mkContext "linear/w" OtherModule)
              (set_base_shapes (Some degenerate_shapes) Mup_init)
              "linear" "w" degenerate_shapes [0; 128] 0%nat 64
              eq_refl eq_refl eq_refl) as (Hana & _).
  - vm_compute. lia.
  - reflexivity.
  - reflexivity.
  - discriminate.
  - exact Hana.
Defined.

(** The bias of base shape (128,) requested at (1024, 7, 7): one ratio
    for one infinite dimension, and no [IndexError]. *)
Lemma ratios_are_indexed_in_range_witness :
  (run (_mup_creator_on (F:=Q) example_next_creator [1024; 7; 7] "float32" example_init
          (mkContext "linear/b" OtherModule)) example_session).2 ≠ inl IndexError.
Proof.
  destruct (ratios_are_indexed_in_range (F:=Q) example_next_creator [1024; 7; 7] "float32"
              example_init (mkContext "linear/b" OtherModule) example_session)
    as (_ & Hindex).
  exact Hindex.
Defined.

(** After the readout weight is created the context cannot be entered. *)
Lemma returned_creator_enables_wrapping_witness :
  (init_context_enter example_shapes
     (mkWorld (session_after_creator (F:=Q) example_next_creator [1024; 10] "float32"
                 example_init (mkContext "readout/w" Readout) example_session) None)).2 =
    inl SessionReuse.
Proof.
  assert ((run (_mup_creator_on (F:=Q) example_next_creator [1024; 10] "float32"
                  example_init (mkContext "readout/w" Readout)) example_session).2 =
          inr ([1024; 10], "float32", ConstantStdInit example_init (PyFloat (1 # 8))))
    as Hreturned by reflexivity.
  destruct (returned_creator_enables_wrapping (F:=Q) (A:=list Q) (S:=unit) (P:=unit)
              example_next_creator [1024; 10] "float32" example_init
              (mkContext "readout/w" Readout) example_session _
              example_optimizer false example_shapes None Hreturned) as (_ & _ & Henter).
  exact Henter.
Defined.

(** The readout weight created twice. *)
Lemma creator_twice_is_once_witness :
  let create := _mup_creator_on (F:=Q) example_next_creator [1024; 10] "float32"
                  example_init (mkContext "readout/w" Readout) in
  run create (run create example_session).1 = run create example_session.
Proof.
  exact (creator_twice_is_once (F:=Q) example_next_creator example_session
           (mkContext "readout/w" Readout) [1024; 10] "float32" example_init
           "readout" "w" [128; 10] example_finds_readout).
Defined.

(** The bias of [example_params], created at its own shape as a Readout
    parameter. *)
Lemma own_shapes_are_standard_witness :
  run (_mup_creator_on (F:=Q) example_next_creator [3] "float32" example_init
         (mkContext "linear/b" Readout)) own_session =
    (with_lrs "linear" "b" one_float one_float own_session,
     inr ([3], "float32", example_init)).
Proof.
  exact (own_shapes_are_standard (F:=Q) (A:=list Q) example_next_creator example_params
           [1 # 1; 2 # 1; 3 # 1] "float32" example_init (mkContext "linear/b" Readout)
           own_session "linear" "b" eq_refl eq_refl eq_refl).
Defined.

(** The wrapped example optimizer after [example_calls]: the sgd rate of
    the readout weight is 8. *)
Lemma wrapped_optimizer_runs_then_scales_witness :
  update_fn (chain (P:=unit) example_optimizer
               (scale_stage false (self_ (after_calls (F:=Q) example_calls))))
    example_updates ((), mkEmptyState) None =
    inr (<["readout" := <["w" := [16 # 1; 2 # 1]]> ∅]> ∅, ((), mkEmptyState)).
Proof.
  assert (wrap_optimizer (F:=Q) (A:=list Q) (P:=unit) (self_ (after_calls example_calls))
            example_optimizer false =
          inr (λ later, chain example_optimizer (scale_stage false later)))
    as Hwrapped by reflexivity.
  destruct (wrapped_optimizer_runs_then_scales (F:=Q) (A:=list Q) (P:=unit)
              (self_ (after_calls example_calls)) example_optimizer false _ Hwrapped
              (self_ (after_calls example_calls)) example_updates () mkEmptyState None)
    as (_ & _ & Hupdate).
  rewrite (Hupdate example_updates () eq_refl). reflexivity.
Defined.

(** Around the context of a fresh session object no creator is installed. *)
Lemma apply_mup_inside_and_after_context_witness :
  apply_mup (init_context (F:=Q) example_shapes example_body (after_calls [])).1 = None.
Proof.
  destruct (apply_mup_inside_and_after_context (F:=Q) example_shapes example_body
              (after_calls []) eq_refl) as (_ & _ & Hleft).
  exact (Hleft eq_refl).
Defined.

(** The sgd rate of the readout weight after [example_calls] comes from
    one of these calls. *)
Lemma entries_come_from_their_calls_witness :
  ∃ c, c ∈ example_calls (F:=Q) ∧ call_for c "readout" "w".
Proof.
  destruct (entries_come_from_their_calls (F:=Q) example_calls "readout" "w") as [Hlr _].
  apply Hlr. left. by eexists.
Defined.

(** The readout weight of the example, created then read. *)
Lemma created_readout_is_read_divided_witness :
  _mup_getter (F:=Q) (A:=list Q) id [16 # 1; 4 # 1] (mkContext "readout/w" Readout)
    (session_after_creator example_next_creator [1024; 10] "float32" example_init
       (mkContext "readout/w" Readout) example_session) = inr [2 # 1; 1 # 2].
Proof.
  exact (created_readout_is_read_divided (F:=Q) (A:=list Q) example_next_creator id
           example_session (mkContext "readout/w" Readout) [1024; 10] "float32"
           example_init "readout" "w" [128; 10] 0%nat [16 # 1; 4 # 1]
           example_finds_readout eq_refl eq_refl eq_refl).
Defined.
